(** * tools/sh_commands.py: device locks and the OpenCL binary merge

    A shallow embedding of the pieces of [tools/sh_commands.py] that
    carry invariants:

    - [device_lock_path], [device_lock], [is_device_locked]: the file lock
      that serialises access to one device;
    - [merge_opencl_binaries]: the reader, merger and writer of the
      length-prefixed key/value container of compiled OpenCL programs;
    - the helpers that read the output of a command: [split_stdout],
      [stdout_success], [adb_devices] and the functions that sort the
      devices by platform, [adb_supported_abis], [bazel_target_to_bin]
      and [falcon_tags].

    The module is Python 2 code (print statement, [xrange], [iteritems]).
    The library calls it makes are embedded with the behaviour they have
    there: [struct.pack]/[struct.unpack] in native mode on a little-endian
    64-bit host, slicing of a one-dimensional numpy array, numpy's
    elementwise [==] with broadcasting, [xrange], [os.path.join],
    [os.path.dirname], [os.path.exists], the [dict] type and
    [filelock.FileLock].  What the commands it runs through [sh] do
    ([mkdir], [iconv], [adb]) is taken as a parameter. *)

From Stdlib Require Import ZArith List String Ascii Bool Lia.
From Stdlib.Strings Require Import Byte.
From Stdlib Require Import Permutation QArith.
Import ListNotations.

Local Open Scope Z_scope.

(** ** Exceptions and results *)

(** The exceptions the modelled code can raise.  None of them is caught in
    [merge_opencl_binaries]; each one ends the call. *)
Inductive exn : Type :=
| StructError              (* struct.error, from pack or unpack *)
| OverflowError            (* xrange(n) with n above sys.maxint *)
| AttributeError           (* .all() on a value that is not an array *)
| ConflictingPlatformInfo  (* common.mace_check on a false condition *)
| IOError                  (* open or tofile on a path that cannot be opened *)
| ErrorReturnCode.         (* sh, for a command that exits with an error *)

Inductive result (A : Type) : Type :=
| Ok (a : A)
| Err (e : exn).

Arguments Ok {A} a.
Arguments Err {A} e.

Definition bind {A B} (r : result A) (k : A -> result B) : result B :=
  match r with
  | Ok a => k a
  | Err e => Err e
  end.

Notation "x <- r ;; k" := (bind r (fun x => k))
  (at level 61, r at next level, right associativity).

(** ** Bytes, slices and [struct] *)

Definition bytes := list byte.

Definition len {A} (a : list A) : Z := Z.of_nat (List.length a).

(** Python's treatment of one bound of a slice [a[i:j]]: a negative bound
    counts from the end, and the result is clipped to [0 .. len a]. *)
Definition clip (n i : Z) : Z :=
  if i <? 0 then Z.max (i + n) 0 else Z.min i n.

(** [a[start:stop]] on a list or a one-dimensional array.  Bounds outside
    the array are clipped, never an error. *)
Definition py_slice {A} (a : list A) (start stop : Z) : list A :=
  let lo := clip (len a) start in
  let hi := clip (len a) stop in
  firstn (Z.to_nat (hi - lo)) (skipn (Z.to_nat lo) a).

Definition byte_to_Z (b : byte) : Z := Z.of_N (Byte.to_N b).

Definition byte_of_Z (z : Z) : byte :=
  match Byte.of_N (Z.to_N (z mod 256)) with
  | Some b => b
  | None => x00
  end.

(** Little-endian value of a byte string, and the [n] low bytes of a
    number, least significant first. *)
Fixpoint le_decode (bs : bytes) : Z :=
  match bs with
  | [] => 0
  | b :: rest => byte_to_Z b + 256 * le_decode rest
  end.

Fixpoint le_encode (n : nat) (z : Z) : bytes :=
  match n with
  | O => []
  | S n' => byte_of_Z z :: le_encode n' (z / 256)
  end.

(** [struct.unpack("Q", buf)]: eight bytes, unsigned.  [unpack] raises
    [struct.error] unless the buffer has exactly the size of the format. *)
Definition unpack_Q (buf : bytes) : result Z :=
  if len buf =? 8 then Ok (le_decode buf) else Err StructError.

(** [struct.unpack("i", buf)]: four bytes, two's complement. *)
Definition unpack_i (buf : bytes) : result Z :=
  if len buf =? 4 then
    let u := le_decode buf in
    Ok (if u <? 2 ^ 31 then u else u - 2 ^ 32)
  else Err StructError.

(** [struct.unpack(str(n) + "s", buf)].  For a negative [n] the format
    string is ["-5s"] and the like, which [struct] rejects. *)
Definition unpack_s (n : Z) (buf : bytes) : result string :=
  if n <? 0 then Err StructError
  else if len buf =? n then Ok (string_of_list_byte buf)
  else Err StructError.

(** [struct.pack("Q", n)] and [struct.pack("i", n)]: [struct.error] when the
    number does not fit the field. *)
Definition pack_Q (n : Z) : result bytes :=
  if (0 <=? n) && (n <? 2 ^ 64) then Ok (le_encode 8 n) else Err StructError.

Definition pack_i (n : Z) : result bytes :=
  if (- 2 ^ 31 <=? n) && (n <? 2 ^ 31) then Ok (le_encode 4 (n mod 2 ^ 32))
  else Err StructError.

(** [struct.pack(str(n) + "s", s)]: the string cut or zero-padded to [n]
    bytes. *)
Definition pack_s (n : Z) (s : string) : result bytes :=
  if n <? 0 then Err StructError
  else Ok (firstn (Z.to_nat n)
             (list_byte_of_string s ++ repeat x00 (Z.to_nat n))).

(** ** numpy comparison *)

(** [(a == b).all()] on two one-dimensional uint8 arrays.  [==] compares
    elementwise after broadcasting: arrays of one length are compared
    position by position, and an array of length one is compared with every
    element of the other.  For any other pair of lengths numpy (of the
    Python 2 line) gives up the elementwise comparison and [==] evaluates to
    the plain boolean [False], which has no method [all]. *)
Definition np_eq_all (a b : bytes) : result bool :=
  if (List.length a =? List.length b)%nat then
    Ok (forallb (fun p => Byte.eqb (fst p) (snd p)) (combine a b))
  else
    match a, b with
    | [x], _ => Ok (forallb (Byte.eqb x) b)
    | _, [y] => Ok (forallb (fun x => Byte.eqb x y) a)
    | _, _ => Err AttributeError
    end.

(** ** The accumulator [kvs]

    A [dict] from [str] keys to array values.  The embedding keeps the
    entries in the order in which the keys were first inserted; assigning to
    a key that is present replaces its value in place.  Nothing is ever
    deleted from [kvs]. *)
Definition dict := list (string * bytes).

Fixpoint dict_get (k : string) (d : dict) : option bytes :=
  match d with
  | [] => None
  | (k', v) :: d' => if String.eqb k k' then Some v else dict_get k d'
  end.

Fixpoint dict_set (k : string) (v : bytes) (d : dict) : dict :=
  match d with
  | [] => [(k, v)]
  | (k', v') :: d' =>
      if String.eqb k k' then (k', v) :: d' else (k', v') :: dict_set k v d'
  end.

Definition keys (d : dict) : list string := map fst d.

(** ** Reading one container into [kvs] *)

Definition platform_info_key : string :=
  "mace_opencl_precompiled_platform_info_key".

(** Modelled from the spec: [common.mace_check(condition, module, msg)] is
    defined in [tools/common.py], which is not part of the sources at hand.
    On a false condition it reports the message and ends the call; the
    specification names that failure [ConflictingPlatformInfo]. *)
Definition mace_check (condition : bool) : result unit :=
  if condition then Ok tt else Err ConflictingPlatformInfo.

(** Lines 426 to 434: what one decoded record does to the accumulator.  The
    test is [key == platform_info_key and key in kvs]; in its first branch
    [kvs[key]] is the value found by the lookup. *)
Definition store (key : string) (value : bytes) (kvs : dict) : result dict :=
  match dict_get key kvs with
  | Some old =>
      if String.eqb key platform_info_key then
        same <- np_eq_all old value ;;
        _ <- mace_check same ;;
        Ok kvs
      else Ok (dict_set key value kvs)
  | None => Ok (dict_set key value kvs)
  end.

(** One pass through the body of [for _ in xrange(size)]: the cursor [idx]
    and the accumulator before, and after. *)
Definition read_record (binary_array : bytes) (st : Z * dict)
  : result (Z * dict) :=
  let '(idx, kvs) := st in
  key_size <- unpack_i (py_slice binary_array idx (idx + 4)) ;;
  let idx := idx + 4 in
  key <- unpack_s key_size (py_slice binary_array idx (idx + key_size)) ;;
  let idx := idx + key_size in
  value_size <- unpack_i (py_slice binary_array idx (idx + 4)) ;;
  let idx := idx + 4 in
  let value := py_slice binary_array idx (idx + value_size) in
  kvs' <- store key value kvs ;;
  Ok (idx + value_size, kvs').

Fixpoint read_records (n : nat) (binary_array : bytes) (st : Z * dict)
  : result (Z * dict) :=
  match n with
  | O => Ok st
  | S n' =>
      st' <- read_record binary_array st ;;
      read_records n' binary_array st'
  end.

(** [sys.maxint] on the 64-bit host: [xrange] refuses a larger count. *)
Definition sys_maxint : Z := 2 ^ 63 - 1.

(** Lines 415 to 435: the whole of one file, read into [kvs]. *)
Definition read_binary (binary_array : bytes) (kvs : dict) : result dict :=
  size <- unpack_Q (py_slice binary_array 0 8) ;;
  if size >? sys_maxint then Err OverflowError
  else
    st <- read_records (Z.to_nat size) binary_array (8, kvs) ;;
    Ok (snd st).

(** ** The sources on disk *)

(** What lies at a path: a regular file with its content, or a
    directory. *)
Inductive node : Type :=
| File (content : bytes)
| Directory.

(** What there is on disk, by path as the code writes it: [os.path.exists]
    and [open] are read off this map.  For a real disk the empty path has
    nothing. *)
Definition filesystem := string -> option node.

Definition fs_write (fs : filesystem) (path : string) (content : bytes)
  : filesystem :=
  fun p => if String.eqb p path then Some (File content) else fs p.

Fixpoint ends_with_slash (s : string) : bool :=
  match s with
  | EmptyString => false
  | String c EmptyString => Ascii.eqb c "/"
  | String _ rest => ends_with_slash rest
  end.

(** [os.path.join(a, b)] of [posixpath]. *)
Definition os_path_join (a b : string) : string :=
  if String.prefix "/" b then b
  else if String.eqb a "" || ends_with_slash a then a ++ b
  else a ++ "/" ++ b.

Fixpoint has_slash (s : string) : bool :=
  match s with
  | EmptyString => false
  | String c rest => Ascii.eqb c "/" || has_slash rest
  end.

(** [p[:p.rfind('/') + 1]]: the path up to its last slash, the slash
    included. *)
Fixpoint head_to_last_slash (p : string) : string :=
  match p with
  | EmptyString => EmptyString
  | String c rest =>
      if has_slash p then String c (head_to_last_slash rest)
      else EmptyString
  end.

Fixpoint all_slashes (s : string) : bool :=
  match s with
  | EmptyString => true
  | String c rest => Ascii.eqb c "/" && all_slashes rest
  end.

(** [s.rstrip('/')]. *)
Fixpoint rstrip_slashes (s : string) : string :=
  match s with
  | EmptyString => EmptyString
  | String c rest =>
      match rstrip_slashes rest with
      | EmptyString =>
          if Ascii.eqb c "/" then EmptyString else String c EmptyString
      | kept => String c kept
      end
  end.

(** [os.path.dirname(p)] of [posixpath]: the head of the path, without
    its trailing slashes unless it is made of slashes only. *)
Definition os_path_dirname (p : string) : string :=
  let head := head_to_last_slash p in
  if negb (String.eqb head "") && negb (all_slashes head)
  then rstrip_slashes head
  else head.

(** [open(binary_path, "rb")] and [np.fromfile]: the bytes of a regular
    file; a directory cannot be opened. *)
Definition open_rb (fs : filesystem) (path : string) : result bytes :=
  match fs path with
  | Some (File content) => Ok content
  | _ => Err IOError
  end.

(** Lines 406 to 435: the loop over the source directories.  A path that
    does not exist is passed over by [continue]; [os.path.exists] holds of
    a directory too. *)
Fixpoint merge_kvs (fs : filesystem) (cl_bin_dirs : list string)
    (cl_compiled_program_file_name : string) (kvs : dict) : result dict :=
  match cl_bin_dirs with
  | [] => Ok kvs
  | binary_dir :: rest =>
      let binary_path :=
        os_path_join binary_dir cl_compiled_program_file_name in
      match fs binary_path with
      | None => merge_kvs fs rest cl_compiled_program_file_name kvs
      | Some _ =>
          binary_array <- open_rb fs binary_path ;;
          kvs' <- read_binary binary_array kvs ;;
          merge_kvs fs rest cl_compiled_program_file_name kvs'
      end
  end.

(** ** Writing the merged container *)

Section Serialize.

(** [kvs.iteritems()] walks the dict in the order of its hash table.  The
    language leaves that order open, so the embedding takes it as a
    parameter: the order in which a dict lists its keys, given the order
    in which they were first inserted.  [CPython27.iter_order] below is the
    order of the interpreter the module runs on. *)
Variable iter_order : list string -> list string.

Definition iteritems (kvs : dict) : list (string * bytes) :=
  flat_map
    (fun k => match dict_get k kvs with Some v => [(k, v)] | None => [] end)
    (iter_order (keys kvs)).

(** The body of [for key, value in kvs.iteritems()], on the output so
    far. *)
Definition write_record (output_byte_array : bytes) (kv : string * bytes)
  : result bytes :=
  let '(key, value) := kv in
  let key_size := Z.of_nat (String.length key) in
  ks <- pack_i key_size ;;
  k <- pack_s key_size key ;;
  let value_size := len value in
  vs <- pack_i value_size ;;
  Ok (output_byte_array ++ ks ++ k ++ vs ++ value).

Fixpoint write_records (items : list (string * bytes))
    (output_byte_array : bytes) : result bytes :=
  match items with
  | [] => Ok output_byte_array
  | kv :: rest =>
      out <- write_record output_byte_array kv ;;
      write_records rest out
  end.

(** Lines 437 to 446. *)
Definition serialize (kvs : dict) : result bytes :=
  let data_size := len kvs in
  header <- pack_Q data_size ;;
  write_records (iteritems kvs) header.

(** [sh.mkdir("-p", d)] runs the command [mkdir -p d].  It fails, and
    [sh] raises, or it succeeds, and then [d] is a directory; it changes
    nothing that is there already, and it always fails on the empty path.
    When it fails, and which other paths it turns into directories (the
    parents of [d], and the other ways of writing those), is the business
    of the command: the embedding takes that as a parameter, [None] for a
    failure. *)
Variable mkdir_made : string -> filesystem -> option (string -> bool).

Definition mkdir_p (d : string) (fs : filesystem) : result filesystem :=
  if String.eqb d "" then Err ErrorReturnCode
  else
    match mkdir_made d fs with
    | None => Err ErrorReturnCode
    | Some made =>
        Ok (fun p =>
              match fs p with
              | Some n => Some n
              | None =>
                  if String.eqb p d || made p then Some Directory else None
              end)
    end.

(** Lines 402 to 404: the directory of the output is made unless
    something lies at its path. *)
Definition make_output_dir (fs : filesystem) (output_file_path : string)
  : result filesystem :=
  let opencl_binary_dir := os_path_dirname output_file_path in
  match fs opencl_binary_dir with
  | Some _ => Ok fs
  | None => mkdir_p opencl_binary_dir fs
  end.

(** [np.array(output_byte_array).tofile(output_file_path)] opens the path
    for writing: that fails on a directory, and on a path whose directory
    is not one. *)
Definition tofile (fs : filesystem) (path : string) (content : bytes)
  : result filesystem :=
  match fs (os_path_dirname path), fs path with
  | Some Directory, Some Directory => Err IOError
  | Some Directory, _ => Ok (fs_write fs path content)
  | _, _ => Err IOError
  end.

(** The whole function: the file system after the call, with the merged
    container at [output_file_path], or the exception that ended it. *)
Definition merge_opencl_binaries (fs : filesystem)
    (binaries_dirs : list string) (cl_compiled_program_file_name : string)
    (output_file_path : string) : result filesystem :=
  let cl_bin_dirs :=
    map (fun d => os_path_join d "opencl_bin") binaries_dirs in
  fs <- make_output_dir fs output_file_path ;;
  kvs <- merge_kvs fs cl_bin_dirs cl_compiled_program_file_name [] ;;
  output_byte_array <- serialize kvs ;;
  tofile fs output_file_path output_byte_array.

End Serialize.

(** ** The dict order of CPython 2.7 *)

Module CPython27.

(** [string_hash] of [Objects/stringobject.c], as an unsigned 64-bit
    number; hash randomisation is off, as it is by default. *)
Definition string_hash (s : string) : Z :=
  match list_byte_of_string s with
  | [] => 0
  | (p0 :: _) as ps =>
      let x :=
        fold_left
          (fun x p => Z.lxor ((1000003 * x) mod 2 ^ 64) (byte_to_Z p))
          ps (Z.shiftl (byte_to_Z p0) 7) in
      let x := Z.lxor x (len ps mod 2 ^ 64) in
      if x =? 2 ^ 64 - 1 then 2 ^ 64 - 2 else x
  end.

Definition table := list (option string).

Definition slot (t : table) (i : Z) : option (option string) :=
  nth_error t (Z.to_nat i).

Fixpoint set_slot (t : table) (i : nat) (k : string) : table :=
  match t, i with
  | [], _ => []
  | _ :: t', O => Some k :: t'
  | s :: t', S i' => s :: set_slot t' i' k
  end.

(** The probe sequence of [lookdict_string] and [insertdict_clean]:
    the slot [i & mask], then [i = (i << 2) + i + perturb + 1] with
    [perturb >>= 5].  Returns the first empty slot met.  The C loop has
    no bound because the table always keeps an empty slot; here it gets
    [fuel]. *)
Fixpoint find_empty (fuel : nat) (t : table) (mask i perturb : Z)
  : option Z :=
  match slot t (Z.land i mask) with
  | Some None => Some (Z.land i mask)
  | _ =>
      match fuel with
      | O => None
      | S fuel' =>
          find_empty fuel' t mask ((5 * i + perturb + 1) mod 2 ^ 64)
            (Z.shiftr perturb 5)
      end
  end.

(** The same sequence on its own: the index and [perturb] after [j]
    steps. *)
Fixpoint probe (j : nat) (i perturb : Z) : Z * Z :=
  match j with
  | O => (i, perturb)
  | S j' => probe j' ((5 * i + perturb + 1) mod 2 ^ 64) (Z.shiftr perturb 5)
  end.

Definition insert_clean (t : table) (k : string) : table :=
  let mask := len t - 1 in
  let h := string_hash k in
  match find_empty (List.length t + 64) t mask (Z.land h mask) h with
  | Some i => set_slot t (Z.to_nat i) k
  | None => t
  end.

Definition used (t : table) : Z :=
  len (filter (fun s => match s with Some _ => true | None => false end) t).

Definition active_keys (t : table) : list string :=
  flat_map (fun s => match s with Some k => [k] | None => [] end) t.

(** [dictresize]: the smallest power of two above [minused], from
    [PyDict_MINSIZE = 8]; the entries are put back in slot order. *)
Fixpoint new_size (fuel : nat) (size minused : Z) : Z :=
  match fuel with
  | O => size
  | S fuel' =>
      if size <=? minused then new_size fuel' (2 * size) minused else size
  end.

Definition dictresize (t : table) (minused : Z) : table :=
  let size := new_size 64 8 minused in
  fold_left insert_clean (active_keys t) (repeat None (Z.to_nat size)).

(** [PyDict_SetItem] for a key, as far as the layout goes: a key that is
    present keeps its slot; a new one takes the first empty slot of its
    probe sequence, and the table grows once two thirds are filled. *)
Definition set_item (t : table) (k : string) : table :=
  if existsb (String.eqb k) (active_keys t) then t
  else
    let t' := insert_clean t k in
    if 3 * used t' >=? 2 * len t' then
      dictresize t' ((if used t' >? 50000 then 2 else 4) * used t')
    else t'.

(** The state of a table between two assignments: a power of two of slots,
    at least 8, and fewer than two thirds of them taken. *)
Definition table_ok (t : table) : Prop :=
  exists k : nat,
    (3 <= k <= 64)%nat /\ len t = 2 ^ Z.of_nat k /\ 3 * used t < 2 * len t.

Definition iter_order (first_inserted : list string) : list string :=
  active_keys (fold_left set_item first_inserted (repeat None 8%nat)).

End CPython27.

(** ** The device lock *)

(** A [filelock.FileLock] object: the lock file and the default timeout of
    [acquire], in seconds. *)
Record FileLock : Type := {
  lock_file : string;
  timeout : Q
}.

Definition device_lock_path (serialno : string) : string :=
  "/tmp/device-lock-" ++ serialno.

(** [device_lock(serialno, timeout=3600)]; [None] is a call that leaves the
    keyword argument out. *)
Definition device_lock (serialno : string) (timeout : option Q) : FileLock :=
  {| lock_file := device_lock_path serialno;
     timeout := match timeout with Some t => t | None => 3600%Q end |}.

(** The lock files that some holder has locked at the moment.  A lock
    object made by [device_lock] is new, so whoever holds its file is
    another holder. *)
Definition locks := string -> bool.

Definition set_lock (held : locks) (path : string) (b : bool) : locks :=
  fun p => if String.eqb p path then b else held p.

(** What [FileLock.acquire] comes to while nobody else moves: the lock is
    taken when it is free; when it is held, [filelock.Timeout] is raised
    once the timeout has passed, and a negative timeout waits for ever. *)
Inductive acquired : Type :=
| Acquired (held : locks)
| Timeout
| Blocked.

Definition acquire (l : FileLock) (held : locks) : acquired :=
  if held (lock_file l) then
    if Qle_bool 0 (timeout l) then Timeout else Blocked
  else Acquired (set_lock held (lock_file l) true).

Definition release (l : FileLock) (held : locks) : locks :=
  set_lock held (lock_file l) false.

(** [is_device_locked]: the answer and the locks after the call, or [None]
    when the call does not return.  Leaving the [with] block by [return
    False] runs [__exit__], which releases the lock. *)
Definition is_device_locked (serialno : string) (held : locks)
  : option (bool * locks) :=
  let l := device_lock serialno (Some (1 # 1000000)%Q) in
  match acquire l held with
  | Acquired held' => Some (false, release l held')
  | Timeout => Some (true, held)
  | Blocked => None
  end.


(** ** The container layout, for the statements below *)

(** One record as it lies in a file: key length, key, value length, value,
    the lengths in four bytes each. *)
Definition record_bytes (kv : string * bytes) : bytes :=
  le_encode 4 (Z.of_nat (String.length (fst kv)))
    ++ list_byte_of_string (fst kv)
    ++ le_encode 4 (len (snd kv))
    ++ snd kv.

(** The head of a record: key length, key and value length. *)
Definition record_head (k : string) (value_size : Z) : bytes :=
  le_encode 4 (Z.of_nat (String.length k))
    ++ list_byte_of_string k ++ le_encode 4 value_size.

(** A whole container: the record count in eight bytes, then the records. *)
Definition container_bytes (records : list (string * bytes)) : bytes :=
  le_encode 8 (len records) ++ flat_map record_bytes records.

(** Both lengths of a record fit the signed four-byte field. *)
Definition well_sized (kv : string * bytes) : Prop :=
  Z.of_nat (String.length (fst kv)) < 2 ^ 31 /\ len (snd kv) < 2 ^ 31.

(** The records of a file, stored one after the other. *)
Fixpoint store_all (records : list (string * bytes)) (kvs : dict)
  : result dict :=
  match records with
  | [] => Ok kvs
  | (k, v) :: rest => kvs' <- store k v kvs ;; store_all rest kvs'
  end.

(** The value of the last record with key [k], if there is one. *)
Fixpoint last_value (k : string) (records : list (string * bytes))
  : option bytes :=
  match records with
  | [] => None
  | (k', v) :: rest =>
      match last_value k rest with
      | Some v' => Some v'
      | None => if String.eqb k k' then Some v else None
      end
  end.

(** The value of the first record with key [k], if there is one. *)
Definition first_value (k : string) (records : list (string * bytes))
  : option bytes :=
  dict_get k records.


(** ** Sample sources

    File systems with a few small containers, on which the functions above
    are run in the examples below. *)
Definition fs_of (files : list (string * bytes)) (dirs : list string)
  : filesystem :=
  fun p =>
    match dict_get p files with
    | Some content => Some (File content)
    | None => if existsb (String.eqb p) dirs then Some Directory else None
    end.

(** The directories of the samples: those of the two sources, and [out]
    for the output. *)
Definition sample_dirs : list string :=
  ["x"; "x/opencl_bin"; "y"; "y/opencl_bin"; "out"]%string.

(** Two sources that both carry the platform info key: one byte [05] in
    the first, the two bytes [05 05] in the second. *)
Definition platform_fs : filesystem :=
  fs_of
    [("x/opencl_bin/cl.bin"%string,
      container_bytes [(platform_info_key, [x05])]);
     ("y/opencl_bin/cl.bin"%string,
      container_bytes [(platform_info_key, [x05; x05])])]
    sample_dirs.

(** A source with the key [b], read first, and one with the key [a]. *)
Definition letters_fs : filesystem :=
  fs_of
    [("x/opencl_bin/cl.bin"%string, container_bytes [("b"%string, [x01])]);
     ("y/opencl_bin/cl.bin"%string, container_bytes [("a"%string, [x02])])]
    sample_dirs.

(** Two sources with the same program key and different binaries. *)
Definition program_fs : filesystem :=
  fs_of
    [("x/opencl_bin/cl.bin"%string,
      container_bytes [("conv2d"%string, [x0a; x0b])]);
     ("y/opencl_bin/cl.bin"%string,
      container_bytes [("conv2d"%string, [x0c; x0d; x0e])])]
    sample_dirs.

(** A [mkdir -p] for the samples.  It makes the parents of the path, read
    off the path as it is written, and fails when one of them is a regular
    file. *)
Fixpoint parents (fuel : nat) (p : string) : list string :=
  match fuel with
  | O => []
  | S fuel' =>
      let d := os_path_dirname p in
      if String.eqb d "" || String.eqb d p then []
      else d :: parents fuel' d
  end.

Definition mkdir_parents (d : string) (fs : filesystem)
  : option (string -> bool) :=
  let above := parents (String.length d) d in
  if existsb
       (fun p => match fs p with Some (File _) => true | _ => false end)
       above
  then None
  else Some (fun p => existsb (String.eqb p) above).


(** ** Strings as Python 2 has them

    The strings of the module are byte strings, [str]; the output of a
    command run through [sh] is read as one. *)

(** [s.split(sep)] for a separator of one character: the pieces between the
    separators, the empty ones too. *)
Fixpoint split_char (sep : ascii) (s : string) : list string :=
  match s with
  | EmptyString => [EmptyString]
  | String c rest =>
      if Ascii.eqb c sep then EmptyString :: split_char sep rest
      else
        match split_char sep rest with
        | first :: others => String c first :: others
        | [] => [String c EmptyString]
        end
  end.

(** [needle in hay]: [needle] begins at some position of [hay]. *)
Fixpoint contains (needle hay : string) : bool :=
  String.prefix needle hay ||
  match hay with
  | EmptyString => false
  | String _ rest => contains needle rest
  end.

(** The characters that [str.strip()] removes and that [\s] matches: space,
    tab, line feed, vertical tab, form feed and carriage return. *)
Definition is_space (c : ascii) : bool :=
  let n := nat_of_ascii c in
  (n =? 32)%nat || ((9 <=? n)%nat && (n <=? 13)%nat).

(** The characters that [\w] matches in a byte string pattern without
    flags: letters, digits and the underscore. *)
Definition is_word (c : ascii) : bool :=
  let n := nat_of_ascii c in
  ((48 <=? n)%nat && (n <=? 57)%nat) || ((65 <=? n)%nat && (n <=? 90)%nat)
  || (n =? 95)%nat || ((97 <=? n)%nat && (n <=? 122)%nat).

Fixpoint lstrip (s : string) : string :=
  match s with
  | EmptyString => EmptyString
  | String c rest => if is_space c then lstrip rest else s
  end.

Fixpoint rstrip (s : string) : string :=
  match s with
  | EmptyString => EmptyString
  | String c rest =>
      match rstrip rest with
      | EmptyString => if is_space c then EmptyString else String c EmptyString
      | kept => String c kept
      end
  end.

(** [s.strip()]. *)
Definition strip (s : string) : string := rstrip (lstrip s).

(** [s.replace(' ', '')]. *)
Fixpoint remove_spaces (s : string) : string :=
  match s with
  | EmptyString => EmptyString
  | String c rest =>
      if Ascii.eqb c " " then remove_spaces rest
      else String c (remove_spaces rest)
  end.

(** [s.replace('//', '/')]: the occurrences are taken from the left and do
    not overlap. *)
Fixpoint replace_double_slash (s : string) : string :=
  match s with
  | EmptyString => EmptyString
  | String c rest =>
      match rest with
      | String c' rest' =>
          if Ascii.eqb c "/" && Ascii.eqb c' "/"
          then String "/" (replace_double_slash rest')
          else String c (replace_double_slash rest)
      | EmptyString => s
      end
  end.

(** The longest prefix of characters that satisfy [p], and what follows
    it. *)
Fixpoint span (p : ascii -> bool) (s : string) : string * string :=
  match s with
  | EmptyString => (EmptyString, EmptyString)
  | String c rest =>
      if p c then
        let '(taken, remaining) := span p rest in
        (String c taken, remaining)
      else (EmptyString, s)
  end.

(** Every character of [s] satisfies [p]. *)
Definition all_chars (p : ascii -> bool) (s : string) : bool :=
  forallb p (list_ascii_of_string s).

(** ** Exceptions of the helper functions *)

Inductive raised : Type :=
| ValueError   (* unpacking a list of the wrong length *)
| KeyError.    (* d[k] for a key that is not in d *)

Inductive outcome (A : Type) : Type :=
| Returns (a : A)
| Raises (e : raised).

Arguments Returns {A} a.
Arguments Raises {A} e.

(** A dict with [str] keys, entries in the order of first insertion, as
    [dict] above but for values of any type. *)
Fixpoint lookup {A} (k : string) (d : list (string * A)) : option A :=
  match d with
  | [] => None
  | (k', v) :: d' => if String.eqb k k' then Some v else lookup k d'
  end.

Fixpoint assign {A} (k : string) (v : A) (d : list (string * A))
  : list (string * A) :=
  match d with
  | [] => [(k, v)]
  | (k', v') :: d' =>
      if String.eqb k k' then (k', v) :: d' else (k', v') :: assign k v d'
  end.

(** ** Reading the output of a command *)

(** Lines 87 to 93: the loop over the lines. *)
Fixpoint stdout_success_lines (stdout_lines : list string) : bool :=
  match stdout_lines with
  | [] => true
  | line :: rest =>
      if contains "Aborted" line || contains "FAILED" line
         || contains "Segmentation fault" line
      then false
      else stdout_success_lines rest
  end.

Definition stdout_success (stdout : string) : bool :=
  let stdout_lines := split_char "010" stdout in
  stdout_success_lines stdout_lines.

(** [bazel_target_to_bin]: the two names bound to [target.split(':')] need
    a list of exactly two pieces. *)
Definition bazel_target_to_bin (target : string) : outcome (string * string) :=
  match split_char ":" target with
  | [prefix; bin_name] =>
      let prefix := replace_double_slash prefix in
      let prefix :=
        if String.prefix "/" prefix
        then match prefix with String _ tail => tail | EmptyString => prefix end
        else prefix in
      let host_bin_path := ("bazel-bin/" ++ prefix)%string in
      Returns (host_bin_path, bin_name)
  | _ => Raises ValueError
  end.

(** [re.compile(r'(\w+)\s+device').match(line)], group 1 of the match.
    Both repetitions are greedy and take characters of classes that do not
    meet what follows them, so the match, if there is one, is the one with
    the longest run of word characters and the longest run of spaces. *)
Definition match_device (line : string) : option string :=
  let '(word, after_word) := span is_word line in
  match word with
  | EmptyString => None
  | _ =>
      let '(spaces, after_spaces) := span is_space after_word in
      match spaces with
      | EmptyString => None
      | _ => if String.prefix "device" after_spaces then Some word else None
      end
  end.

Section Shell.

(** [strip_invalid_utf8] pipes its argument through [iconv -c -t UTF-8];
    what [iconv] gives back is taken as it comes. *)
Variable strip_invalid_utf8 : string -> string.

(** Lines 52 to 55. *)
Definition split_stdout (stdout_str : string) : list string :=
  let stdout_str := strip_invalid_utf8 stdout_str in
  map strip
    (filter (fun l => (0 <? String.length (strip l))%nat)
       (split_char "010" stdout_str)).

(** [adb_devices], on the output of [adb devices]. *)
Fixpoint adb_devices_lines (lines : list string) : list string :=
  match lines with
  | [] => []
  | line :: rest =>
      match match_device line with
      | Some serialno => serialno :: adb_devices_lines rest
      | None => adb_devices_lines rest
      end
  end.

Definition adb_devices (devices_output : string) : list string :=
  adb_devices_lines (split_stdout devices_output).

(** The output of [adb devices], and the dict that
    [adb_getprop_by_serialno] returns for each serial number (it runs [adb
    shell getprop] on the device and reads the properties off its
    output). *)
Variable devices_output : string.
Variable adb_getprop_by_serialno : string -> list (string * string).

(** The device [serialno] reports the platform [target_soc]. *)
Definition has_platform (target_soc serialno : string) : bool :=
  match lookup "ro.board.platform" (adb_getprop_by_serialno serialno) with
  | Some platform => String.eqb platform target_soc
  | None => false
  end.

(** The device [serialno] has the property [ro.board.platform]. *)
Definition reports_platform (serialno : string) : bool :=
  match lookup "ro.board.platform" (adb_getprop_by_serialno serialno) with
  | Some _ => true
  | None => false
  end.

(** [soc_serialnos_map.setdefault(k, []).append(x)]. *)
Definition setdefault_append (k x : string) (d : list (string * list string))
  : list (string * list string) :=
  match lookup k d with
  | Some l => assign k (l ++ [x]) d
  | None => assign k [x] d
  end.

Fixpoint soc_serialnos_loop (serialnos : list string)
    (soc_serialnos_map : list (string * list string))
  : outcome (list (string * list string)) :=
  match serialnos with
  | [] => Returns soc_serialnos_map
  | serialno :: rest =>
      let props := adb_getprop_by_serialno serialno in
      match lookup "ro.board.platform" props with
      | None => Raises KeyError
      | Some platform =>
          soc_serialnos_loop rest
            (setdefault_append platform serialno soc_serialnos_map)
      end
  end.

Definition get_soc_serialnos_map : outcome (list (string * list string)) :=
  let serialnos := adb_devices devices_output in
  soc_serialnos_loop serialnos [].

Fixpoint extend_serialnos (soc_serialnos_map : list (string * list string))
    (target_socs : list string) (serialnos : list string)
  : outcome (list string) :=
  match target_socs with
  | [] => Returns serialnos
  | target_soc :: rest =>
      match lookup target_soc soc_serialnos_map with
      | None => Raises KeyError
      | Some found =>
          extend_serialnos soc_serialnos_map rest (serialnos ++ found)
      end
  end.

(** The order in which a dict lists its keys, as in [iteritems] above. *)
Variable iter_order : list string -> list string.

(** [get_target_socs_serialnos(target_socs=None)]; [None] is the call
    without the argument. *)
Definition get_target_socs_serialnos (target_socs : option (list string))
  : outcome (list string) :=
  match get_soc_serialnos_map with
  | Raises e => Raises e
  | Returns soc_serialnos_map =>
      let target_socs :=
        match target_socs with
        | None => iter_order (map fst soc_serialnos_map)
        | Some given => given
        end in
      extend_serialnos soc_serialnos_map target_socs []
  end.

Fixpoint soc_serial_number_loop (serial_numbers : list string)
    (soc_serial_number_map : list (string * string))
  : outcome (list (string * string)) :=
  match serial_numbers with
  | [] => Returns soc_serial_number_map
  | num :: rest =>
      let props := adb_getprop_by_serialno num in
      match lookup "ro.board.platform" props with
      | None => Raises KeyError
      | Some platform =>
          soc_serial_number_loop rest
            (assign platform num soc_serial_number_map)
      end
  end.

Definition get_soc_serial_number_map : outcome (list (string * string)) :=
  let serial_numbers := adb_devices devices_output in
  soc_serial_number_loop serial_numbers [].

(** The serial number, or Python's [None]. *)
Definition get_target_soc_serial_number (target_soc : string)
  : outcome (option string) :=
  match get_soc_serial_number_map with
  | Raises e => Raises e
  | Returns soc_serial_number_map =>
      Returns (lookup target_soc soc_serial_number_map)
  end.

(** [adb_get_all_socs]: the loop that fills the list [socs], and the
    set made of it, kept as the list of its elements, each once. *)
Fixpoint all_socs_loop (devices : list string) (socs : list string)
  : outcome (list string) :=
  match devices with
  | [] => Returns socs
  | d :: rest =>
      let props := adb_getprop_by_serialno d in
      match lookup "ro.board.platform" props with
      | None => Raises KeyError
      | Some platform => all_socs_loop rest (socs ++ [platform])
      end
  end.

Definition adb_get_all_socs : outcome (list string) :=
  match all_socs_loop (adb_devices devices_output) [] with
  | Raises e => Raises e
  | Returns socs => Returns (nodup string_dec socs)
  end.

(** [props.get("ro.product.model", "").replace(' ', '')]. *)
Definition adb_get_device_name_by_serialno (serialno : string) : string :=
  let props := adb_getprop_by_serialno serialno in
  remove_spaces
    match lookup "ro.product.model" props with
    | Some model => model
    | None => EmptyString
    end.

Definition adb_supported_abis (serialno : string) : outcome (list string) :=
  let props := adb_getprop_by_serialno serialno in
  match lookup "ro.product.cpu.abilist" props with
  | None => Raises KeyError
  | Some abilist_str => Returns (map strip (split_char "," abilist_str))
  end.

(** [falcon_tags], for a dict whose values are strings already. *)
Fixpoint falcon_tags_loop (items : list (string * string)) (tags : string)
  : string :=
  match items with
  | [] => tags
  | (k, v) :: rest =>
      falcon_tags_loop rest
        (if String.eqb tags "" then (k ++ "=" ++ v)%string
         else (tags ++ "," ++ k ++ "=" ++ v)%string)
  end.

Definition dict_items {A} (d : list (string * A)) : list (string * A) :=
  flat_map
    (fun k => match lookup k d with Some v => [(k, v)] | None => [] end)
    (iter_order (map fst d)).

Definition falcon_tags (tags_dict : list (string * string)) : string :=
  falcon_tags_loop (dict_items tags_dict) "".

End Shell.

(** ** Sample devices

    The output of [adb devices] with two devices attached, and the
    properties that each of them reports. *)
Definition sample_devices_output : string :=
  ("List of devices attached" ++ String "010"
     ("R58M42ABCDE" ++ String "009"
        ("device" ++ String "010"
           ("0123456789ABCDEF" ++ String "009"
              ("device" ++ String "010" (String "010" ""))))))%string.

(** The line of the first device. *)
Definition sample_device_line : string :=
  ("R58M42ABCDE" ++ String "009" "device")%string.

Definition sample_getprop (serialno : string) : list (string * string) :=
  if String.eqb serialno "R58M42ABCDE"
  then [("ro.board.platform", "sdm845"); ("ro.product.model", "SM G960U");
        ("ro.product.cpu.abilist", "arm64-v8a,armeabi-v7a,armeabi")]%string
  else [("ro.board.platform", "msm8998"); ("ro.product.model", "MI 6");
        ("ro.product.cpu.abilist", "arm64-v8a,armeabi-v7a,armeabi")]%string.

(** A source whose file stops inside the record count. *)
Definition short_fs : filesystem :=
  fs_of [("x/opencl_bin/cl.bin"%string, [x01; x00; x00])] sample_dirs.

(** * Properties *)

(** ** Bytes and little-endian fields *)

Lemma byte_to_Z_range (b : byte) : 0 <= byte_to_Z b < 256.
Proof.
  unfold byte_to_Z. pose proof (Byte.to_N_bounded b). lia.
Qed.

Lemma byte_to_of_Z (z : Z) : byte_to_Z (byte_of_Z z) = z mod 256.
Proof.
  unfold byte_of_Z, byte_to_Z.
  assert (Hr : 0 <= z mod 256 < 256) by (apply Z.mod_pos_bound; lia).
  destruct (Byte.of_N (Z.to_N (z mod 256))) as [b|] eqn:E.
  - apply Byte.to_of_N in E. rewrite E. lia.
  - apply Byte.of_N_None_iff in E. lia.
Qed.

Lemma le_encode_length (n : nat) (z : Z) : List.length (le_encode n z) = n.
Proof.
  revert z. induction n as [|n IH]; intros z; simpl; [reflexivity|].
  now rewrite IH.
Qed.

Lemma le_decode_encode (n : nat) (z : Z) :
  le_decode (le_encode n z) = z mod 256 ^ Z.of_nat n.
Proof.
  revert z. induction n as [|n IH]; intros z.
  - simpl. now rewrite Z.mod_1_r.
  - cbn [le_encode le_decode]. rewrite byte_to_of_Z, IH.
    rewrite Nat2Z.inj_succ, Z.pow_succ_r by lia.
    rewrite (Z.rem_mul_r z 256 (256 ^ Z.of_nat n)) by lia.
    reflexivity.
Qed.

Lemma len_app {A} (a b : list A) : len (a ++ b) = len a + len b.
Proof. unfold len. rewrite length_app. lia. Qed.

Lemma len_nonneg {A} (a : list A) : 0 <= len a.
Proof. unfold len. lia. Qed.

Lemma len_le_encode (n : nat) (z : Z) : len (le_encode n z) = Z.of_nat n.
Proof. unfold len. now rewrite le_encode_length. Qed.

Lemma unpack_Q_encode (z : Z) :
  0 <= z < 2 ^ 64 -> unpack_Q (le_encode 8 z) = Ok z.
Proof.
  intros Hz. unfold unpack_Q. rewrite len_le_encode. simpl (_ =? _).
  rewrite le_decode_encode. f_equal. apply Z.mod_small.
  change (256 ^ Z.of_nat 8) with (2 ^ 64). lia.
Qed.

Lemma unpack_i_encode (z : Z) :
  0 <= z < 2 ^ 31 -> unpack_i (le_encode 4 z) = Ok z.
Proof.
  intros Hz. unfold unpack_i. rewrite len_le_encode. simpl (_ =? _).
  rewrite le_decode_encode.
  change (256 ^ Z.of_nat 4) with (2 ^ 32).
  rewrite Z.mod_small by lia.
  destruct (Z.ltb_spec z (2 ^ 31)); [reflexivity | lia].
Qed.

Lemma pack_i_size (z : Z) :
  0 <= z < 2 ^ 31 -> pack_i z = Ok (le_encode 4 z).
Proof.
  intros Hz. unfold pack_i.
  destruct (Z.leb_spec (- 2 ^ 31) z); [|lia].
  destruct (Z.ltb_spec z (2 ^ 31)); [|lia].
  simpl. now rewrite Z.mod_small by lia.
Qed.

Lemma len_list_byte_of_string (s : string) :
  len (list_byte_of_string s) = Z.of_nat (String.length s).
Proof.
  unfold len, list_byte_of_string. rewrite length_map. f_equal.
  induction s as [|c s IH]; simpl; [reflexivity|]. now rewrite IH.
Qed.

Lemma pack_s_whole (s : string) :
  pack_s (Z.of_nat (String.length s)) s = Ok (list_byte_of_string s).
Proof.
  unfold pack_s. destruct (Z.ltb_spec (Z.of_nat (String.length s)) 0); [lia|].
  rewrite Nat2Z.id. f_equal.
  pose proof (len_list_byte_of_string s) as Hl. unfold len in Hl.
  apply Nat2Z.inj in Hl. rewrite <- Hl.
  rewrite firstn_app, Nat.sub_diag, firstn_all. simpl. apply app_nil_r.
Qed.

Lemma unpack_s_whole (bs : bytes) :
  unpack_s (len bs) bs = Ok (string_of_list_byte bs).
Proof.
  unfold unpack_s. pose proof (len_nonneg bs).
  destruct (Z.ltb_spec (len bs) 0); [lia|]. now rewrite Z.eqb_refl.
Qed.

(** ** Slices *)

(** With bounds that are not negative a slice is a [firstn] of a [skipn];
    what lies beyond the end is simply not there. *)
Lemma py_slice_nonneg {A} (a : list A) (i j : Z) :
  0 <= i <= j ->
  py_slice a i j = firstn (Z.to_nat (j - i)) (skipn (Z.to_nat i) a).
Proof.
  intros Hij. unfold py_slice, clip.
  destruct (Z.ltb_spec i 0); [lia|]. destruct (Z.ltb_spec j 0); [lia|].
  pose proof (len_nonneg a) as Hn. unfold len in *.
  destruct (Z_le_gt_dec (Z.of_nat (List.length a)) i) as [Hi|Hi].
  - rewrite (skipn_all2 a) by lia. rewrite skipn_all2 by lia.
    now rewrite !firstn_nil.
  - rewrite (Z.min_l i) by lia.
    destruct (Z_le_gt_dec j (Z.of_nat (List.length a))) as [Hj|Hj].
    + now rewrite Z.min_l by lia.
    + rewrite Z.min_r by lia.
      rewrite !firstn_all2; [reflexivity| |]; rewrite length_skipn; lia.
Qed.

Lemma py_slice_app_mid {A} (pre x post : list A) (n : Z) :
  n = len x ->
  py_slice (pre ++ x ++ post) (len pre) (len pre + n) = x.
Proof.
  intros ->. pose proof (len_nonneg pre). pose proof (len_nonneg x).
  rewrite py_slice_nonneg by lia. unfold len.
  rewrite Nat2Z.id, skipn_app, skipn_all, Nat.sub_diag. simpl.
  replace (Z.to_nat _) with (List.length x) by lia.
  rewrite firstn_app, Nat.sub_diag, firstn_all. simpl. apply app_nil_r.
Qed.

Lemma py_slice_at {A} (buf pre x post : list A) (i n : Z) :
  buf = pre ++ x ++ post -> i = len pre -> n = len x ->
  py_slice buf i (i + n) = x.
Proof. intros -> -> Hn. now apply py_slice_app_mid. Qed.

(** ** Reading a well-formed container *)

Lemma bind_ok {A B} (a : A) (k : A -> result B) : bind (Ok a) k = k a.
Proof. reflexivity. Qed.

Lemma len_record_bytes (kv : string * bytes) :
  len (record_bytes kv) =
  8 + Z.of_nat (String.length (fst kv)) + len (snd kv).
Proof.
  unfold record_bytes.
  rewrite !len_app, !len_le_encode, len_list_byte_of_string. lia.
Qed.

Lemma py_slice_from {A} (buf pre rest : list A) (i n : Z) :
  buf = pre ++ rest -> i = len pre -> 0 <= n ->
  py_slice buf i (i + n) = firstn (Z.to_nat n) rest.
Proof.
  intros -> -> Hn. pose proof (len_nonneg pre).
  rewrite py_slice_nonneg by lia. unfold len.
  rewrite Nat2Z.id, skipn_app, skipn_all, Nat.sub_diag. simpl.
  f_equal. lia.
Qed.

Lemma len_record_head (k : string) (value_size : Z) :
  len (record_head k value_size) = 8 + Z.of_nat (String.length k).
Proof.
  unfold record_head.
  rewrite !len_app, !len_le_encode, len_list_byte_of_string. lia.
Qed.

(** When the head of a record lies whole at the cursor, the loop body takes
    as value the [value_size] bytes that follow, or as many as there are. *)
Lemma read_record_head (pre rest : bytes) (k : string) (value_size : Z)
    (kvs : dict) :
  Z.of_nat (String.length k) < 2 ^ 31 -> 0 <= value_size < 2 ^ 31 ->
  read_record (pre ++ record_head k value_size ++ rest) (len pre, kvs) =
  (kvs' <- store k (firstn (Z.to_nat value_size) rest) kvs ;;
   Ok (len pre + len (record_head k value_size) + value_size, kvs')).
Proof.
  intros Hk Hv.
  set (ksz := Z.of_nat (String.length k)) in *.
  set (f1 := le_encode 4 ksz).
  set (f2 := list_byte_of_string k).
  set (f3 := le_encode 4 value_size).
  assert (Hf2 : len f2 = ksz) by apply len_list_byte_of_string.
  assert (Hhd : record_head k value_size = f1 ++ f2 ++ f3) by reflexivity.
  unfold read_record.
  rewrite (py_slice_at _ pre f1 (f2 ++ f3 ++ rest));
    [ | rewrite Hhd, <- !app_assoc; reflexivity | reflexivity
      | unfold f1; now rewrite len_le_encode ].
  unfold f1 at 1. rewrite unpack_i_encode by (unfold ksz; lia).
  rewrite bind_ok.
  rewrite (py_slice_at _ (pre ++ f1) f2 (f3 ++ rest));
    [ | rewrite Hhd, <- !app_assoc; reflexivity
      | unfold f1; rewrite len_app, len_le_encode; reflexivity
      | now rewrite Hf2 ].
  rewrite <- Hf2 at 1. rewrite unpack_s_whole, bind_ok.
  unfold f2 at 1. rewrite string_of_list_byte_of_string.
  rewrite (py_slice_at _ (pre ++ f1 ++ f2) f3 rest);
    [ | rewrite Hhd, <- !app_assoc; reflexivity
      | unfold f1; rewrite !len_app, len_le_encode;
        change (Z.of_nat 4) with 4; lia
      | unfold f3; now rewrite len_le_encode ].
  unfold f3 at 1. rewrite unpack_i_encode by lia. rewrite bind_ok.
  rewrite (py_slice_from _ (pre ++ f1 ++ f2 ++ f3) rest);
    [ | rewrite Hhd, <- !app_assoc; reflexivity
      | unfold f1, f3; rewrite !len_app, !len_le_encode;
        change (Z.of_nat 4) with 4; lia
      | lia ].
  destruct (store k _ kvs) as [kvs'|e]; cbn [bind]; [|reflexivity].
  rewrite len_record_head. fold ksz. do 2 f_equal. lia.
Qed.

Lemma record_bytes_head (k : string) (v : bytes) :
  record_bytes (k, v) = record_head k (len v) ++ v.
Proof. unfold record_bytes, record_head. now rewrite <- !app_assoc. Qed.

(** On a record that lies whole at the cursor, the loop body decodes its
    key and value and stores them. *)
Lemma read_record_at (pre post : bytes) (k : string) (v : bytes) (kvs : dict) :
  well_sized (k, v) ->
  read_record (pre ++ record_bytes (k, v) ++ post) (len pre, kvs) =
  (kvs' <- store k v kvs ;;
   Ok (len pre + len (record_bytes (k, v)), kvs')).
Proof.
  intros [Hk Hv]. cbn [fst snd] in Hk, Hv. pose proof (len_nonneg v).
  rewrite record_bytes_head, <- app_assoc.
  rewrite read_record_head by lia.
  unfold len at 1. rewrite Nat2Z.id, firstn_app, Nat.sub_diag, firstn_all.
  cbn [firstn]. rewrite app_nil_r.
  destruct (store k v kvs); cbn [bind]; [|reflexivity].
  rewrite len_app. do 2 f_equal. lia.
Qed.

Lemma read_records_at (records : list (string * bytes)) :
  Forall well_sized records ->
  forall (pre post : bytes) (kvs : dict),
  read_records (List.length records)
    (pre ++ flat_map record_bytes records ++ post) (len pre, kvs) =
  (kvs' <- store_all records kvs ;;
   Ok (len pre + len (flat_map record_bytes records), kvs')).
Proof.
  induction 1 as [|[k v] rest Hkv _ IH]; intros pre post kvs.
  - simpl. do 2 f_equal. unfold len. simpl. lia.
  - cbn [List.length read_records flat_map store_all].
    rewrite <- app_assoc, (read_record_at pre _ k v kvs Hkv).
    destruct (store k v kvs) as [kvs1|e]; cbn [bind]; [|reflexivity].
    rewrite <- len_app.
    replace (pre ++ record_bytes (k, v) ++ flat_map record_bytes rest ++ post)
      with ((pre ++ record_bytes (k, v)) ++ flat_map record_bytes rest ++ post)
      by now rewrite <- app_assoc.
    rewrite IH. destruct (store_all rest kvs1); cbn [bind]; [|reflexivity].
    do 2 f_equal. rewrite !len_app. lia.
Qed.

(** Reading a container is storing its records in order; bytes after the
    last record are not looked at. *)
Lemma read_binary_container (records : list (string * bytes))
    (extra : bytes) (kvs : dict) :
  Forall well_sized records -> len records <= sys_maxint ->
  read_binary (container_bytes records ++ extra) kvs = store_all records kvs.
Proof.
  intros Hws Hn. unfold read_binary, container_bytes.
  pose proof (len_nonneg records) as H0.
  assert (Hmax : sys_maxint < 2 ^ 64) by (unfold sys_maxint; lia).
  replace (py_slice _ 0 8) with (le_encode 8 (len records)).
  2:{ symmetry.
      apply (py_slice_at _ [] _ (flat_map record_bytes records ++ extra) 0 8);
        [now rewrite <- app_assoc | reflexivity | now rewrite len_le_encode]. }
  rewrite unpack_Q_encode by lia. rewrite bind_ok.
  destruct (Z.gtb_spec (len records) sys_maxint); [lia|].
  unfold len at 1. rewrite Nat2Z.id, <- app_assoc.
  change (8, kvs) with (len (le_encode 8 (len records)), kvs).
  rewrite read_records_at by assumption.
  now destruct (store_all records kvs).
Qed.

(** ** The accumulator *)

Lemma dict_get_set_same (k : string) (v : bytes) (d : dict) :
  dict_get k (dict_set k v d) = Some v.
Proof.
  induction d as [|[k' v'] d IH]; simpl.
  - now rewrite String.eqb_refl.
  - destruct (String.eqb k k') eqn:E; simpl; rewrite E; [reflexivity|exact IH].
Qed.

Lemma dict_get_set_other (k k' : string) (v : bytes) (d : dict) :
  k' <> k -> dict_get k' (dict_set k v d) = dict_get k' d.
Proof.
  intros Hne. induction d as [|[k0 v0] d IH]; simpl.
  - apply String.eqb_neq in Hne. now rewrite Hne.
  - destruct (String.eqb k k0) eqn:E; simpl.
    + apply String.eqb_eq in E. subst k0.
      apply String.eqb_neq in Hne. now rewrite Hne.
    + now rewrite IH.
Qed.

Lemma dict_get_none (k : string) (d : dict) :
  dict_get k d = None <-> ~ In k (keys d).
Proof.
  induction d as [|[k' v'] d IH]; simpl; [tauto|].
  destruct (String.eqb_spec k k') as [->|Hne].
  - split; [discriminate | intros H; exfalso; apply H; now left].
  - rewrite IH. split; intros H; [intros [Heq|Hin]; [congruence|tauto] | tauto].
Qed.

Lemma dict_set_fresh (k : string) (v : bytes) (d : dict) :
  dict_get k d = None -> dict_set k v d = d ++ [(k, v)].
Proof.
  induction d as [|[k' v'] d IH]; simpl; [reflexivity|].
  destruct (String.eqb k k'); [discriminate|]. intros H. now rewrite IH.
Qed.

Lemma dict_set_present (k : string) (v : bytes) (d : dict) :
  dict_get k d <> None -> keys (dict_set k v d) = keys d.
Proof.
  induction d as [|[k' v'] d IH]; simpl; [congruence|].
  destruct (String.eqb k k'); simpl; [reflexivity|].
  intros H. now rewrite IH.
Qed.

Lemma dict_set_nodup (k : string) (v : bytes) (d : dict) :
  NoDup (keys d) -> NoDup (keys (dict_set k v d)).
Proof.
  intros Hnd. destruct (dict_get k d) as [old|] eqn:E.
  - rewrite dict_set_present by congruence. exact Hnd.
  - rewrite dict_set_fresh by exact E. unfold keys. rewrite map_app. simpl.
    apply dict_get_none in E.
    apply NoDup_rev in Hnd. rewrite <- (rev_involutive (map fst d ++ [k])).
    apply NoDup_rev. rewrite rev_app_distr. simpl. constructor.
    + now rewrite <- in_rev.
    + exact Hnd.
Qed.

(** With the keys all different, looking a key up and finding the pair in
    the list are the same. *)
Lemma dict_get_in (k : string) (v : bytes) (d : dict) :
  NoDup (keys d) -> dict_get k d = Some v <-> In (k, v) d.
Proof.
  induction d as [|[k' v'] d IH]; simpl; intros Hnd.
  - split; [discriminate | tauto].
  - inversion Hnd as [|? ? Hnotin Hnd']; subst.
    destruct (String.eqb_spec k k') as [->|Hne].
    + split.
      * intros [= ->]. now left.
      * intros [[= ->]|Hin]; [reflexivity|].
        exfalso. apply Hnotin. change k' with (fst (k', v)).
        now apply in_map.
    + rewrite (IH Hnd'). split; [tauto|].
      intros [[= -> ->]|Hin]; [congruence|exact Hin].
Qed.

Lemma dict_get_perm (k : string) (d d' : dict) :
  NoDup (keys d) -> Permutation d d' -> dict_get k d' = dict_get k d.
Proof.
  intros Hnd Hp.
  assert (Hnd' : NoDup (keys d'))
    by (eapply Permutation_NoDup; [apply Permutation_map; exact Hp|exact Hnd]).
  destruct (dict_get k d) as [v|] eqn:E.
  - apply dict_get_in; [exact Hnd'|].
    apply (Permutation_in _ Hp). now apply dict_get_in.
  - apply dict_get_none. apply dict_get_none in E. intros Hin. apply E.
    eapply Permutation_in; [apply Permutation_map, Permutation_sym, Hp|].
    exact Hin.
Qed.

(** ** Storing records *)

Lemma store_other_key (k : string) (v : bytes) (kvs : dict) :
  k <> platform_info_key -> store k v kvs = Ok (dict_set k v kvs).
Proof.
  intros Hne. unfold store. apply String.eqb_neq in Hne. rewrite Hne.
  now destruct (dict_get k kvs).
Qed.

Lemma store_fresh_key (k : string) (v : bytes) (kvs : dict) :
  dict_get k kvs = None -> store k v kvs = Ok (kvs ++ [(k, v)]).
Proof.
  intros Hn. unfold store. rewrite Hn. now rewrite dict_set_fresh.
Qed.

(** A record can only be refused when its key is the platform info key, and
    then by the comparison or by [mace_check]. *)
Lemma store_err (k : string) (v : bytes) (kvs : dict) (e : exn) :
  store k v kvs = Err e ->
  k = platform_info_key /\ dict_get k kvs <> None /\
  (e = ConflictingPlatformInfo \/ e = AttributeError).
Proof.
  unfold store. destruct (dict_get k kvs) as [old|]; [|discriminate].
  destruct (String.eqb_spec k platform_info_key) as [->|]; [|discriminate].
  intros H. split; [reflexivity|]. split; [discriminate|].
  unfold np_eq_all in H.
  destruct (List.length old =? List.length v)%nat.
  - cbn [bind] in H. destruct (forallb _ _); cbn in H; [discriminate|].
    left. congruence.
  - destruct old as [|x [|x' old]], v as [|y [|y' v]]; cbn [bind] in H;
      try (right; congruence);
      match type of H with
      | context [mace_check ?c] => destruct c; cbn in H;
          [discriminate | left; congruence]
      end.
Qed.

Lemma store_get_other (k k' : string) (v : bytes) (kvs kvs' : dict) :
  store k v kvs = Ok kvs' -> k' <> k -> dict_get k' kvs' = dict_get k' kvs.
Proof.
  unfold store. intros H Hne.
  destruct (dict_get k kvs) as [old|].
  - destruct (String.eqb k platform_info_key).
    + destruct (np_eq_all old v) as [[|]|]; cbn in H; try discriminate.
      now inversion H.
    + inversion H. now apply dict_get_set_other.
  - inversion H. now apply dict_get_set_other.
Qed.

Lemma store_nodup (k : string) (v : bytes) (kvs kvs' : dict) :
  store k v kvs = Ok kvs' -> NoDup (keys kvs) -> NoDup (keys kvs').
Proof.
  unfold store. intros H Hnd.
  destruct (dict_get k kvs) as [old|].
  - destruct (String.eqb k platform_info_key).
    + destruct (np_eq_all old v) as [[|]|]; cbn in H; try discriminate.
      injection H as <-. exact Hnd.
    + injection H as <-. now apply dict_set_nodup.
  - injection H as <-. now apply dict_set_nodup.
Qed.

Lemma store_all_nodup (records : list (string * bytes)) :
  forall kvs kvs', store_all records kvs = Ok kvs' ->
  NoDup (keys kvs) -> NoDup (keys kvs').
Proof.
  induction records as [|[k v] rest IH]; intros kvs kvs'; cbn [store_all].
  - now intros [= ->].
  - destruct (store k v kvs) as [kvs1|e] eqn:E; cbn [bind]; [|discriminate].
    intros H Hnd. apply (IH _ _ H). exact (store_nodup _ _ _ _ E Hnd).
Qed.

Lemma store_all_fresh (records : list (string * bytes)) :
  forall kvs, NoDup (keys (kvs ++ records)) ->
  store_all records kvs = Ok (kvs ++ records).
Proof.
  induction records as [|[k v] rest IH]; intros kvs Hnd; cbn [store_all].
  - now rewrite app_nil_r.
  - rewrite store_fresh_key.
    + cbn [bind]. rewrite IH; rewrite <- app_assoc; [reflexivity|exact Hnd].
    + apply dict_get_none. unfold keys in *. rewrite map_app in Hnd.
      simpl in Hnd. apply NoDup_remove_2 in Hnd.
      intros Hin. apply Hnd. apply in_or_app. now left.
Qed.

Lemma store_all_untouched (k : string) (records : list (string * bytes)) :
  forall kvs kvs', store_all records kvs = Ok kvs' ->
  last_value k records = None -> dict_get k kvs' = dict_get k kvs.
Proof.
  induction records as [|[k1 v1] rest IH]; intros kvs kvs';
    cbn [store_all last_value].
  - now intros [= ->].
  - destruct (store k1 v1 kvs) as [kvs1|e] eqn:E; cbn [bind]; [|discriminate].
    intros H Hl. destruct (last_value k rest) eqn:El; [discriminate|].
    destruct (String.eqb_spec k k1) as [|Hne]; [discriminate|].
    rewrite (IH _ _ H eq_refl). exact (store_get_other _ _ _ _ _ E Hne).
Qed.

(** For any key but the platform info key, the last record with that key
    decides its value. *)
Lemma store_all_last (k : string) (v : bytes)
    (records : list (string * bytes)) :
  k <> platform_info_key ->
  forall kvs kvs', store_all records kvs = Ok kvs' ->
  last_value k records = Some v -> dict_get k kvs' = Some v.
Proof.
  intros Hk. induction records as [|[k1 v1] rest IH]; intros kvs kvs';
    cbn [store_all last_value]; [discriminate|].
  destruct (store k1 v1 kvs) as [kvs1|e] eqn:E; cbn [bind]; [|discriminate].
  intros H Hl. destruct (last_value k rest) as [v'|] eqn:El.
  - inversion Hl; subst. now apply (IH _ _ H).
  - destruct (String.eqb_spec k k1) as [<-|Hne]; [|discriminate].
    inversion Hl; subst.
    rewrite (store_all_untouched _ _ _ _ H El).
    rewrite store_other_key in E by exact Hk. inversion E.
    apply dict_get_set_same.
Qed.

Lemma store_all_err (records : list (string * bytes)) :
  forall kvs e, store_all records kvs = Err e ->
  In platform_info_key (keys records) /\
  (e = ConflictingPlatformInfo \/ e = AttributeError).
Proof.
  induction records as [|[k v] rest IH]; intros kvs e; cbn [store_all];
    [discriminate|].
  destruct (store k v kvs) as [kvs1|e1] eqn:E; cbn [bind].
  - intros H. destruct (IH _ _ H) as [Hin He]. split; [now right|exact He].
  - intros [= ->]. apply store_err in E. destruct E as (-> & _ & He).
    split; [now left|exact He].
Qed.

(** The platform info key keeps the first value stored for it: a later
    record for it is checked against that value and never stored. *)
Lemma store_all_platform_info (records : list (string * bytes)) :
  forall kvs kvs', store_all records kvs = Ok kvs' ->
  dict_get platform_info_key kvs' =
  match dict_get platform_info_key kvs with
  | Some v0 => Some v0
  | None => first_value platform_info_key records
  end.
Proof.
  unfold first_value.
  induction records as [|[k1 v1] rest IH]; intros kvs kvs'; cbn [store_all].
  - intros [= <-]. now destruct (dict_get platform_info_key kvs).
  - destruct (store k1 v1 kvs) as [kvs1|e] eqn:E; cbn [bind]; [|discriminate].
    intros H. rewrite (IH _ _ H). cbn [dict_get].
    destruct (String.eqb_spec platform_info_key k1) as [<-|Hne].
    + unfold store in E.
      destruct (dict_get platform_info_key kvs) as [v0|] eqn:G.
      * rewrite String.eqb_refl in E.
        destruct (np_eq_all v0 v1) as [[|]|]; cbn in E; try discriminate.
        injection E as <-. now rewrite G.
      * injection E as <-. now rewrite dict_get_set_same.
    + now rewrite (store_get_other _ _ _ _ _ E Hne).
Qed.

(** ** The keys of the accumulator stay distinct *)

Lemma read_record_nodup (buf : bytes) (idx idx' : Z) (kvs kvs' : dict) :
  read_record buf (idx, kvs) = Ok (idx', kvs') ->
  NoDup (keys kvs) -> NoDup (keys kvs').
Proof.
  unfold read_record.
  destruct (unpack_i _) as [key_size|]; cbn [bind]; [|discriminate].
  destruct (unpack_s _ _) as [key|]; cbn [bind]; [|discriminate].
  destruct (unpack_i _) as [value_size|]; cbn [bind]; [|discriminate].
  destruct (store _ _ _) as [kvs1|] eqn:E; cbn [bind]; [|discriminate].
  intros [= _ <-]. exact (store_nodup _ _ _ _ E).
Qed.

Lemma read_records_nodup (n : nat) (buf : bytes) :
  forall st st', read_records n buf st = Ok st' ->
  NoDup (keys (snd st)) -> NoDup (keys (snd st')).
Proof.
  induction n as [|n IH]; intros st st'; cbn [read_records].
  - now intros [= ->].
  - destruct (read_record buf st) as [[idx1 kvs1]|] eqn:E; cbn [bind];
      [|discriminate].
    intros H Hnd. apply (IH _ _ H). destruct st as [idx kvs].
    exact (read_record_nodup _ _ _ _ _ E Hnd).
Qed.

Lemma read_binary_nodup (buf : bytes) (kvs kvs' : dict) :
  read_binary buf kvs = Ok kvs' -> NoDup (keys kvs) -> NoDup (keys kvs').
Proof.
  unfold read_binary.
  destruct (unpack_Q _) as [size|]; cbn [bind]; [|discriminate].
  destruct (size >? sys_maxint); [discriminate|].
  destruct (read_records _ _ _) as [st|] eqn:E; cbn [bind]; [|discriminate].
  intros [= <-]. exact (read_records_nodup _ _ _ _ E).
Qed.

(** One pass through the loop, by what lies at the path. *)
Lemma merge_kvs_step (fs : filesystem) (name d : string)
    (rest : list string) (kvs : dict) :
  merge_kvs fs (d :: rest) name kvs =
  match fs (os_path_join d name) with
  | None => merge_kvs fs rest name kvs
  | Some (File binary_array) =>
      kvs' <- read_binary binary_array kvs ;; merge_kvs fs rest name kvs'
  | Some Directory => Err IOError
  end.
Proof.
  cbn [merge_kvs]. unfold open_rb.
  destruct (fs (os_path_join d name)) as [[buf|]|]; reflexivity.
Qed.

Lemma merge_kvs_nodup (fs : filesystem) (name : string)
    (dirs : list string) :
  forall kvs kvs', merge_kvs fs dirs name kvs = Ok kvs' ->
  NoDup (keys kvs) -> NoDup (keys kvs').
Proof.
  induction dirs as [|d dirs IH]; intros kvs kvs';
    [cbn [merge_kvs]|rewrite merge_kvs_step].
  - now intros [= ->].
  - destruct (fs _) as [[buf|]|]; [|discriminate|apply IH].
    destruct (read_binary buf kvs) as [kvs1|] eqn:E; cbn [bind];
      [|discriminate].
    intros H Hnd. apply (IH _ _ H). exact (read_binary_nodup _ _ _ E Hnd).
Qed.

(** ** What the writer puts out *)

Lemma pack_i_ok (n : Z) (b : bytes) :
  0 <= n -> pack_i n = Ok b -> b = le_encode 4 n /\ n < 2 ^ 31.
Proof.
  intros Hn. unfold pack_i.
  destruct (Z.ltb_spec n (2 ^ 31)); [|rewrite andb_false_r; discriminate].
  destruct (- 2 ^ 31 <=? n); cbn [andb]; [|discriminate].
  intros [= <-]. now rewrite Z.mod_small by lia.
Qed.

Lemma write_record_ok (out out' : bytes) (kv : string * bytes) :
  write_record out kv = Ok out' ->
  out' = out ++ record_bytes kv /\ well_sized kv.
Proof.
  destruct kv as [k v]. unfold write_record.
  destruct (pack_i (Z.of_nat _)) as [ks|] eqn:E1; cbn [bind]; [|discriminate].
  rewrite pack_s_whole. cbn [bind].
  destruct (pack_i (len v)) as [vs|] eqn:E2; cbn [bind]; [|discriminate].
  apply pack_i_ok in E1; [|lia]. apply pack_i_ok in E2; [|apply len_nonneg].
  destruct E1 as [-> ?], E2 as [-> ?]. intros [= <-].
  split; [reflexivity | split; assumption].
Qed.

Lemma write_records_ok (items : list (string * bytes)) :
  forall out out', write_records items out = Ok out' ->
  out' = out ++ flat_map record_bytes items /\ Forall well_sized items.
Proof.
  induction items as [|kv items IH]; intros out out'; cbn [write_records].
  - intros [= <-]. now rewrite app_nil_r.
  - destruct (write_record out kv) as [out1|] eqn:E; cbn [bind];
      [|discriminate].
    intros H. apply write_record_ok in E. destruct E as [-> Hkv].
    apply IH in H. destruct H as [-> Hall].
    cbn [flat_map]. rewrite <- app_assoc. split; [reflexivity|].
    now constructor.
Qed.

Lemma write_records_sized (items : list (string * bytes)) :
  Forall well_sized items ->
  forall out, write_records items out = Ok (out ++ flat_map record_bytes items).
Proof.
  induction 1 as [|[k v] items [Hk Hv] _ IH]; intros out; cbn [write_records].
  - now rewrite app_nil_r.
  - cbn [fst snd] in Hk, Hv. unfold write_record.
    rewrite pack_i_size by lia. cbn [bind]. rewrite pack_s_whole. cbn [bind].
    rewrite pack_i_size by (pose proof (len_nonneg v); lia). cbn [bind].
    rewrite IH. cbn [flat_map]. unfold record_bytes. cbn [fst snd].
    now rewrite <- !app_assoc.
Qed.

(** ** The order of [iteritems] *)

Lemma flat_map_lookup_keys (d0 d : dict) :
  NoDup (keys d) ->
  (forall k v, In (k, v) d -> dict_get k d0 = Some v) ->
  flat_map
    (fun k => match dict_get k d0 with Some v => [(k, v)] | None => [] end)
    (keys d) = d.
Proof.
  induction d as [|[k v] d IH]; intros Hnd Hget; [reflexivity|].
  cbn [keys map flat_map fst]. rewrite (Hget k v) by now left.
  cbn [app]. f_equal. inversion Hnd; subst.
  apply IH; [assumption|]. intros k' v' Hin. apply Hget. now right.
Qed.

(** Whatever order the dict lists its keys in, as long as it lists each key
    once, [iteritems] yields the entries of the dict, each once. *)
Lemma iteritems_perm (iter_order : list string -> list string) (kvs : dict) :
  NoDup (keys kvs) ->
  Permutation (iter_order (keys kvs)) (keys kvs) ->
  Permutation (iteritems iter_order kvs) kvs.
Proof.
  intros Hnd Hp. unfold iteritems.
  rewrite (Permutation_flat_map _ Hp).
  rewrite flat_map_lookup_keys; [reflexivity|exact Hnd|].
  intros k v Hin. now apply dict_get_in.
Qed.

(** ** The dict of CPython 2.7

    The order in which the dict of CPython 2.7 lists its keys is a
    permutation of the keys: every probe sequence reaches every slot, so a
    key always finds an empty one, and resizing puts every key back. *)

(** *** Powers of 5 modulo powers of 2 *)

Lemma pow5_mod4 (e : nat) : 5 ^ Z.of_nat e mod 4 = 1.
Proof.
  induction e as [|e IH]; [reflexivity|].
  rewrite Nat2Z.inj_succ, Z.pow_succ_r by lia.
  rewrite Z.mul_mod, IH by lia. reflexivity.
Qed.

Lemma pow5_mod8_odd (e : nat) : 5 ^ (2 * Z.of_nat e + 1) mod 8 = 5.
Proof.
  induction e as [|e IH]; [reflexivity|].
  replace (2 * Z.of_nat (S e) + 1) with (Z.succ (Z.succ (2 * Z.of_nat e + 1)))
    by lia.
  rewrite !Z.pow_succ_r by lia.
  rewrite Z.mul_assoc, Z.mul_mod, IH by lia. reflexivity.
Qed.

Lemma pow2_divide_odd_factor (m : nat) (x q : Z) :
  q mod 2 = 1 -> (2 ^ Z.of_nat m | x * q) -> (2 ^ Z.of_nat m | x).
Proof.
  intros Hq. revert x. induction m as [|m IH]; intros x H.
  - apply Z.divide_1_l.
  - rewrite Nat2Z.inj_succ, Z.pow_succ_r in * by lia.
    destruct H as [c Hc].
    assert (Hx : x mod 2 = 0).
    { assert (He : (x * q) mod 2 = 0)
        by (rewrite Hc, (Z.mul_comm 2), Z.mul_assoc; apply Z.mod_mul; lia).
      rewrite Z.mul_mod, Hq in He by lia.
      pose proof (Z.mod_pos_bound x 2 ltac:(lia)).
      assert (Hc2 : x mod 2 = 0 \/ x mod 2 = 1) by lia.
      destruct Hc2 as [E|E]; [exact E|]. rewrite E in He. discriminate. }
    apply Z.mod_divide in Hx; [|lia]. destruct Hx as [x' ->].
    destruct (IH x') as [c' Hc'].
    + exists c. nia.
    + exists c'. nia.
Qed.

(** The order of 5 modulo a power of two: [5 ^ d] is 1 modulo [2 ^ (k + 2)]
    only for the multiples [d] of [2 ^ k]. *)
Lemma pow5_order (k : nat) :
  forall d : nat, (2 ^ Z.of_nat (k + 2) | 5 ^ Z.of_nat d - 1) ->
  (2 ^ Z.of_nat k | Z.of_nat d).
Proof.
  induction k as [|k IH]; intros d H; [apply Z.divide_1_l|].
  destruct (Nat.Even_or_Odd d) as [[e ->]|[e ->]].
  - (* d = 2 e *)
    rewrite Nat2Z.inj_mul in H.
    rewrite Nat2Z.inj_mul, Nat2Z.inj_succ, Z.pow_succ_r by lia.
    apply Z.mul_divide_mono_l. apply IH.
    replace (5 ^ (Z.of_nat 2 * Z.of_nat e) - 1)
      with ((5 ^ Z.of_nat e - 1) * (5 ^ Z.of_nat e + 1)) in H.
    2:{ change (Z.of_nat 2) with 2. rewrite (Z.mul_comm 2), Z.pow_mul_r by lia.
        rewrite Z.pow_2_r. ring. }
    pose proof (pow5_mod4 e) as H4.
    assert (Hq : exists q, 5 ^ Z.of_nat e + 1 = 2 * q /\ q mod 2 = 1).
    { exists ((5 ^ Z.of_nat e + 1) / 2).
      rewrite (Z.div_mod (5 ^ Z.of_nat e) 4), H4 by lia.
      replace (4 * (5 ^ Z.of_nat e / 4) + 1 + 1)
        with ((2 * (5 ^ Z.of_nat e / 4) + 1) * 2) by ring.
      rewrite Z.div_mul by lia. split; [ring|].
      rewrite Z.add_comm, Z.mul_comm, Z.mod_add by lia. reflexivity. }
    destruct Hq as (q & Hq & Hodd). rewrite Hq in H.
    apply (pow2_divide_odd_factor _ _ q Hodd).
    replace (Z.of_nat (S k + 2)) with (Z.succ (Z.of_nat (k + 2))) in H by lia.
    rewrite Z.pow_succ_r in H by lia.
    destruct H as [c Hc]. exists c. nia.
  - (* d odd *)
    exfalso.
    replace (Z.of_nat (2 * e + 1)) with (2 * Z.of_nat e + 1) in H by lia.
    assert (H8 : (8 | 5 ^ (2 * Z.of_nat e + 1) - 1)).
    { eapply Z.divide_trans; [|exact H].
      replace (Z.of_nat (S k + 2)) with (3 + Z.of_nat k) by lia.
      rewrite Z.pow_add_r by lia. exists (2 ^ Z.of_nat k).
      change (2 ^ 3) with 8. ring. }
    apply Z.mod_divide in H8; [|lia].
    rewrite Zminus_mod, pow5_mod8_odd in H8. discriminate.
Qed.

Lemma lxor_below (n a b : Z) :
  0 <= n -> 0 <= a < 2 ^ n -> 0 <= b < 2 ^ n -> 0 <= Z.lxor a b < 2 ^ n.
Proof.
  intros Hn Ha Hb.
  assert (H0 : 0 <= Z.lxor a b) by (apply Z.lxor_nonneg; lia).
  split; [exact H0|].
  destruct (Z.eq_dec (Z.lxor a b) 0) as [->|Hne]; [lia|].
  destruct (Z.eq_dec n 0) as [->|Hn0].
  { exfalso. apply Hne. replace a with 0 by (simpl in Ha; lia).
    replace b with 0 by (simpl in Hb; lia). reflexivity. }
  apply Z.log2_lt_pow2; [lia|].
  eapply Z.le_lt_trans; [apply Z.log2_lxor; lia|].
  apply Z.max_lub_lt.
  - destruct (Z.eq_dec a 0) as [->|]; [simpl|apply Z.log2_lt_pow2]; lia.
  - destruct (Z.eq_dec b 0) as [->|]; [simpl|apply Z.log2_lt_pow2]; lia.
Qed.

Lemma string_hash_range (s : string) :
  0 <= CPython27.string_hash s < 2 ^ 64.
Proof.
  unfold CPython27.string_hash.
  destruct (list_byte_of_string s) as [|p0 ps] eqn:E; [lia|].
  set (l := p0 :: ps).
  assert (Hfold : forall bs x, 0 <= x < 2 ^ 64 ->
            0 <= fold_left
                   (fun x p => Z.lxor ((1000003 * x) mod 2 ^ 64) (byte_to_Z p))
                   bs x < 2 ^ 64).
  { induction bs as [|b bs IH]; intros x Hx; [exact Hx|].
    cbn [fold_left]. apply IH. apply lxor_below; [lia| |].
    - apply Z.mod_pos_bound. lia.
    - pose proof (byte_to_Z_range b). lia. }
  match goal with
  | |- context [Z.lxor ?f (len l mod 2 ^ 64)] =>
      assert (Hx : 0 <= Z.lxor f (len l mod 2 ^ 64) < 2 ^ 64)
  end.
  { apply lxor_below; [lia| |apply Z.mod_pos_bound; lia].
    apply Hfold. pose proof (byte_to_Z_range p0).
    rewrite Z.shiftl_mul_pow2 by lia. lia. }
  destruct (_ =? _); lia.
Qed.

(** *** The probe sequence reaches every slot *)

Lemma probe_add (a b : nat) :
  forall i p,
  CPython27.probe (a + b) i p =
  CPython27.probe b (fst (CPython27.probe a i p))
    (snd (CPython27.probe a i p)).
Proof.
  induction a as [|a IH]; intros i p; [reflexivity|].
  cbn [Nat.add CPython27.probe]. apply IH.
Qed.

Lemma probe_perturb (j : nat) :
  forall i p, 0 <= p ->
  snd (CPython27.probe j i p) = Z.shiftr p (5 * Z.of_nat j).
Proof.
  induction j as [|j IH]; intros i p Hp; cbn [CPython27.probe].
  - now rewrite Z.shiftr_0_r.
  - rewrite IH by (apply Z.shiftr_nonneg; lia).
    rewrite Z.shiftr_shiftr by lia. f_equal. lia.
Qed.

(** Once [perturb] has run out the index moves by [i -> 5 i + 1], and
    [4 i + 1] is multiplied by 5 at every step, modulo any power of two up
    to [2 ^ 66]. *)
Lemma probe_affine (k : nat) :
  (k <= 64)%nat ->
  forall (j : nat) (i : Z),
  (2 ^ Z.of_nat (k + 2) |
     4 * fst (CPython27.probe j i 0) + 1 - 5 ^ Z.of_nat j * (4 * i + 1)).
Proof.
  intros Hk. induction j as [|j IH]; intros i.
  - cbn [CPython27.probe fst]. exists 0. simpl (5 ^ _). ring.
  - cbn [CPython27.probe]. rewrite Z.shiftr_0_l.
    set (i' := (5 * i + 0 + 1) mod 2 ^ 64).
    destruct (IH i') as [c Hc].
    assert (Hi' : (2 ^ Z.of_nat (k + 2) | 4 * i' + 1 - 5 * (4 * i + 1))).
    { unfold i'.
      rewrite (Z.mod_eq (5 * i + 0 + 1) (2 ^ 64)) by lia.
      replace (4 * (5 * i + 0 + 1 - 2 ^ 64 * ((5 * i + 0 + 1) / 2 ^ 64)) + 1
               - 5 * (4 * i + 1))
        with (2 ^ 66 * (- ((5 * i + 0 + 1) / 2 ^ 64)))
        by (change (2 ^ 66) with (4 * 2 ^ 64); ring).
      apply Z.divide_mul_l.
      replace 66 with (Z.of_nat (k + 2) + (66 - Z.of_nat (k + 2))) by lia.
      rewrite Z.pow_add_r by lia. apply Z.divide_factor_l. }
    destruct Hi' as [c' Hc'].
    exists (c + 5 ^ Z.of_nat j * c').
    rewrite Nat2Z.inj_succ, Z.pow_succ_r by lia. nia.
Qed.

Lemma pow5_odd (a : nat) : 5 ^ Z.of_nat a mod 2 = 1.
Proof.
  induction a as [|a IH]; [reflexivity|].
  rewrite Nat2Z.inj_succ, Z.pow_succ_r by lia.
  rewrite Z.mul_mod, IH by lia. reflexivity.
Qed.

(** Two steps of the sequence less than [2 ^ k] apart are on different
    slots of a table of [2 ^ k] slots. *)
Lemma probe_injective (k : nat) (i : Z) (a b : nat) :
  (k <= 64)%nat -> (a < b)%nat -> Z.of_nat b - Z.of_nat a < 2 ^ Z.of_nat k ->
  fst (CPython27.probe a i 0) mod 2 ^ Z.of_nat k
    <> fst (CPython27.probe b i 0) mod 2 ^ Z.of_nat k.
Proof.
  intros Hk Hab Hlt Heq.
  set (m := 2 ^ Z.of_nat k) in *.
  assert (Hm : 0 < m) by (unfold m; apply Z.pow_pos_nonneg; lia).
  set (ia := fst (CPython27.probe a i 0)) in *.
  set (ib := fst (CPython27.probe b i 0)) in *.
  assert (Hdiv : (m | ib - ia)).
  { apply Z.mod_divide; [lia|]. rewrite Zminus_mod, Heq, Z.sub_diag.
    apply Z.mod_0_l. lia. }
  assert (Hm4 : 2 ^ Z.of_nat (k + 2) = 4 * m).
  { unfold m. rewrite Nat2Z.inj_add, Z.pow_add_r by lia.
    change (2 ^ Z.of_nat 2) with 4. ring. }
  destruct (probe_affine k Hk a i) as [ca Hca].
  destruct (probe_affine k Hk b i) as [cb Hcb].
  fold ia in Hca. fold ib in Hcb. rewrite Hm4 in Hca, Hcb.
  destruct Hdiv as [c Hc].
  assert (Hpow : 5 ^ Z.of_nat b
                 = 5 ^ Z.of_nat (b - a) * 5 ^ Z.of_nat a).
  { rewrite <- Z.pow_add_r by lia. f_equal. lia. }
  assert (H5 : (2 ^ Z.of_nat (k + 2) |
                  (5 ^ Z.of_nat (b - a) - 1)
                  * (5 ^ Z.of_nat a * (4 * i + 1)))).
  { rewrite Hm4. exists (c - cb + ca). rewrite Hpow in Hcb. nia. }
  apply pow2_divide_odd_factor in H5.
  - apply pow5_order in H5. fold m in H5.
    apply Z.divide_pos_le in H5; lia.
  - rewrite Z.mul_mod, pow5_odd by lia.
    replace ((4 * i + 1) mod 2) with 1; [reflexivity|].
    rewrite Z.add_comm, (Z.mul_comm 4).
    replace (i * 4) with (i * 2 * 2) by ring.
    now rewrite Z.mod_add by lia.
Qed.

(** A table of [2 ^ k] slots is covered in [2 ^ k] steps. *)
Lemma probe_cover (k : nat) (i e : Z) :
  (k <= 64)%nat -> 0 <= e < 2 ^ Z.of_nat k ->
  exists j : nat,
    Z.of_nat j < 2 ^ Z.of_nat k /\
    fst (CPython27.probe j i 0) mod 2 ^ Z.of_nat k = e.
Proof.
  intros Hk He.
  set (m := 2 ^ Z.of_nat k) in *.
  assert (Hm : 0 < m) by (unfold m; apply Z.pow_pos_nonneg; lia).
  set (n := Z.to_nat m).
  set (f := fun j : nat => fst (CPython27.probe j i 0) mod m).
  assert (Hnd : NoDup (map f (seq 0 n))).
  { apply NoDup_map_NoDup_ForallPairs; [|apply seq_NoDup].
    intros a b Ha Hb Hf. apply in_seq in Ha, Hb. unfold f in Hf.
    destruct (Nat.lt_trichotomy a b) as [Hlt|[Heq|Hlt]]; [|exact Heq|];
      exfalso.
    - apply (probe_injective k i a b Hk Hlt); [lia|exact Hf].
    - apply (probe_injective k i b a Hk Hlt); [lia|now symmetry]. }
  assert (Hincl : incl (map f (seq 0 n)) (map Z.of_nat (seq 0 n))).
  { intros x Hx. apply in_map_iff in Hx. destruct Hx as (j & <- & _).
    pose proof (Z.mod_pos_bound (fst (CPython27.probe j i 0)) m Hm) as Hb.
    apply in_map_iff. exists (Z.to_nat (f j)). unfold f.
    split; [lia|]. apply in_seq. lia. }
  assert (Hin : In e (map f (seq 0 n))).
  { apply (NoDup_length_incl (l' := map Z.of_nat (seq 0 n)) Hnd);
      [now rewrite !length_map|exact Hincl|].
    apply in_map_iff. exists (Z.to_nat e). split; [lia|]. apply in_seq. lia. }
  apply in_map_iff in Hin. destruct Hin as (j & Hj & Hjn).
  apply in_seq in Hjn. exists j. split; [lia|exact Hj].
Qed.

Lemma land_mask (k : nat) (x : Z) :
  Z.land x (2 ^ Z.of_nat k - 1) = x mod 2 ^ Z.of_nat k.
Proof.
  rewrite <- Z.land_ones by lia. now rewrite Z.ones_equiv, Z.sub_1_r.
Qed.

(** From any start, with any hash, the sequence reaches every slot of a
    table of [2 ^ k] slots within [13 + 2 ^ k] steps: after 13 steps
    [perturb] is zero. *)
Lemma probe_reaches (k : nat) (i h e : Z) :
  (k <= 64)%nat -> 0 <= h < 2 ^ 64 -> 0 <= e < 2 ^ Z.of_nat k ->
  exists j : nat,
    Z.of_nat j < 13 + 2 ^ Z.of_nat k /\
    Z.land (fst (CPython27.probe j i h)) (2 ^ Z.of_nat k - 1) = e.
Proof.
  intros Hk Hh He.
  assert (H13 : snd (CPython27.probe 13 i h) = 0).
  { rewrite probe_perturb by lia. change (5 * Z.of_nat 13) with 65.
    apply Z.shiftr_eq_0; [lia|].
    destruct (Z.eq_dec h 0) as [->|]; [simpl; lia|].
    assert (Z.log2 h < 64) by (apply Z.log2_lt_pow2; lia). lia. }
  destruct (probe_cover k (fst (CPython27.probe 13 i h)) e Hk He)
    as (j & Hj & Hslot).
  exists (13 + j)%nat. split; [lia|].
  rewrite probe_add, H13, land_mask. exact Hslot.
Qed.

(** *** The table keeps every key it is given *)

Lemma find_empty_sound (fuel : nat) (t : CPython27.table) (mask : Z) :
  forall i p r,
  CPython27.find_empty fuel t mask i p = Some r ->
  CPython27.slot t r = Some None.
Proof.
  induction fuel as [|fuel IH]; intros i p r; cbn [CPython27.find_empty];
    destruct (CPython27.slot t (Z.land i mask)) as [[k|]|] eqn:E;
    try discriminate; try (intros [= <-]; exact E); apply IH.
Qed.

Lemma find_empty_none (fuel : nat) (t : CPython27.table) (mask : Z) :
  forall i p,
  CPython27.find_empty fuel t mask i p = None ->
  forall j, (j <= fuel)%nat ->
  CPython27.slot t (Z.land (fst (CPython27.probe j i p)) mask) <> Some None.
Proof.
  induction fuel as [|fuel IH]; intros i p H j Hj;
    cbn [CPython27.find_empty] in H;
    destruct (CPython27.slot t (Z.land i mask)) as [[k|]|] eqn:E;
    try discriminate;
    (destruct j as [|j];
     [cbn [CPython27.probe fst]; rewrite E; discriminate|]);
    try lia; cbn [CPython27.probe]; apply IH; (exact H || lia).
Qed.

Lemma used_active (t : CPython27.table) :
  CPython27.used t = len (CPython27.active_keys t).
Proof.
  unfold CPython27.used, CPython27.active_keys, len. f_equal.
  induction t as [|[k|] t IH]; cbn; [reflexivity| |exact IH].
  now rewrite IH.
Qed.

Lemma empty_slot_exists (t : CPython27.table) :
  CPython27.used t < len t -> exists e, nth_error t e = Some None.
Proof.
  unfold CPython27.used, len.
  induction t as [|[k|] t IH]; cbn [filter List.length]; intros H.
  - lia.
  - destruct IH as [e He]; [cbn [List.length] in H; lia|].
    now exists (S e).
  - now exists O.
Qed.

Lemma set_slot_length (t : CPython27.table) (k : string) :
  forall i, List.length (CPython27.set_slot t i k) = List.length t.
Proof.
  induction t as [|s t IH]; intros [|i]; cbn; try reflexivity.
  now rewrite IH.
Qed.

Lemma set_slot_perm (t : CPython27.table) (k : string) :
  forall i, nth_error t i = Some None ->
  Permutation (CPython27.active_keys (CPython27.set_slot t i k))
    (k :: CPython27.active_keys t).
Proof.
  unfold CPython27.active_keys.
  induction t as [|s t IH]; intros [|i]; cbn [nth_error]; try discriminate.
  - intros [= ->]. reflexivity.
  - intros H. cbn [CPython27.set_slot flat_map].
    rewrite (IH i H). destruct s as [k'|]; cbn [app]; [|reflexivity].
    apply perm_swap.
Qed.

(** In a table of [2 ^ k] slots that is not full, a new key finds its
    slot. *)
Lemma insert_clean_perm (k : nat) (t : CPython27.table) (key : string) :
  (k <= 64)%nat -> len t = 2 ^ Z.of_nat k -> CPython27.used t < len t ->
  Permutation (CPython27.active_keys (CPython27.insert_clean t key))
    (key :: CPython27.active_keys t) /\
  List.length (CPython27.insert_clean t key) = List.length t.
Proof.
  intros Hk Hlen Hused. unfold CPython27.insert_clean. rewrite Hlen.
  pose proof (string_hash_range key) as Hh.
  set (h := CPython27.string_hash key) in *.
  set (mask := 2 ^ Z.of_nat k - 1).
  destruct (CPython27.find_empty _ t mask (Z.land h mask) h) as [r|] eqn:E.
  - apply find_empty_sound in E. unfold CPython27.slot in E.
    split; [now apply set_slot_perm | apply set_slot_length].
  - exfalso. destruct (empty_slot_exists t Hused) as [e He].
    assert (Hlt : (e < List.length t)%nat)
      by (apply nth_error_Some; congruence).
    destruct (probe_reaches k (Z.land h mask) h (Z.of_nat e) Hk Hh)
      as (j & Hj & Hslot); [unfold len in Hlen; lia|].
    apply (find_empty_none _ _ _ _ _ E j); [unfold len in Hlen; lia|].
    fold mask in Hslot. rewrite Hslot. unfold CPython27.slot.
    now rewrite Nat2Z.id.
Qed.

Lemma new_size_spec (fuel : nat) :
  forall (j : nat) (size minused : Z),
  size = 2 ^ Z.of_nat j -> 0 <= minused < 2 ^ Z.of_nat (j + fuel) ->
  exists k : nat,
    (j <= k)%nat /\
    CPython27.new_size fuel size minused = 2 ^ Z.of_nat k /\
    minused < 2 ^ Z.of_nat k /\
    (k = j \/ 2 ^ (Z.of_nat k - 1) <= minused).
Proof.
  induction fuel as [|fuel IH]; intros j size minused Hs Hm;
    cbn [CPython27.new_size].
  - exists j. rewrite Nat.add_0_r in Hm. repeat split; auto; lia.
  - destruct (Z.leb_spec size minused) as [Hle|Hgt].
    + destruct (IH (S j) (2 * size) minused) as (k & Hk & Hn & Hlt & Hor).
      * rewrite Hs, Nat2Z.inj_succ, Z.pow_succ_r by lia. reflexivity.
      * now rewrite Nat.add_succ_comm.
      * exists k. repeat split; [lia|exact Hn|exact Hlt|]. right.
        destruct Hor as [->|Hor]; [|exact Hor].
        replace (Z.of_nat (S j) - 1) with (Z.of_nat j) by lia. lia.
    + exists j. repeat split; auto; lia.
Qed.

Lemma active_keys_empty (n : nat) :
  CPython27.active_keys (repeat None n) = [].
Proof. induction n as [|n IH]; [reflexivity|exact IH]. Qed.

Lemma used_empty (n : nat) : CPython27.used (repeat None n) = 0.
Proof. now rewrite used_active, active_keys_empty. Qed.

Lemma fold_insert_clean (k : nat) (keys : list string) :
  (k <= 64)%nat ->
  forall t : CPython27.table,
  len t = 2 ^ Z.of_nat k -> CPython27.used t + len keys < len t ->
  Permutation (CPython27.active_keys (fold_left CPython27.insert_clean keys t))
    (CPython27.active_keys t ++ keys) /\
  List.length (fold_left CPython27.insert_clean keys t) = List.length t.
Proof.
  intros Hk. induction keys as [|a keys IH]; intros t Hlen Hused.
  - cbn [fold_left]. now rewrite app_nil_r.
  - cbn [fold_left]. pose proof (len_nonneg keys) as H0.
    assert (Ha : len (a :: keys) = 1 + len keys)
      by (unfold len; cbn [List.length]; lia).
    destruct (insert_clean_perm k t a Hk Hlen) as [Hp Hl]; [lia|].
    destruct (IH (CPython27.insert_clean t a)) as [Hp' Hl'].
    + unfold len. rewrite Hl. exact Hlen.
    + rewrite used_active. unfold len at 1.
      rewrite (Permutation_length Hp). cbn [List.length].
      rewrite used_active in Hused. unfold len in *. rewrite Hl. lia.
    + split; [|now rewrite Hl', Hl].
      rewrite Hp', Hp. cbn [app]. apply Permutation_middle.
Qed.

Lemma existsb_eqb_false (key : string) (l : list string) :
  ~ In key l -> existsb (String.eqb key) l = false.
Proof.
  intros Hn. destruct (existsb _ l) eqn:E; [|reflexivity].
  apply existsb_exists in E. destruct E as (x & Hx & Heq).
  apply String.eqb_eq in Heq. subst x. contradiction.
Qed.

(** Assigning to a new key keeps the table in order and adds the key. *)
Lemma set_item_new (t : CPython27.table) (key : string) :
  CPython27.table_ok t -> CPython27.used t + 1 < 2 ^ 62 ->
  ~ In key (CPython27.active_keys t) ->
  CPython27.table_ok (CPython27.set_item t key) /\
  Permutation (CPython27.active_keys (CPython27.set_item t key))
    (key :: CPython27.active_keys t).
Proof.
  intros (k & Hk & Hlen & Hload) Hbig Hnew.
  unfold CPython27.set_item. rewrite existsb_eqb_false by exact Hnew.
  assert (Hu0 : 0 <= CPython27.used t)
    by (rewrite used_active; apply len_nonneg).
  destruct (insert_clean_perm k t key) as [Hp Hl]; [lia|exact Hlen|lia|].
  set (t' := CPython27.insert_clean t key) in *.
  assert (Hlen' : len t' = 2 ^ Z.of_nat k) by (unfold len; now rewrite Hl).
  assert (Hu' : CPython27.used t' = CPython27.used t + 1).
  { rewrite !used_active. unfold len. rewrite (Permutation_length Hp).
    cbn [List.length]. lia. }
  destruct (Z.geb_spec (3 * CPython27.used t') (2 * len t')) as [Hfull|Hfree].
  - set (minused := (if CPython27.used t' >? 50000 then 2 else 4)
                    * CPython27.used t').
    assert (Hmin : 2 * CPython27.used t' <= minused <= 4 * CPython27.used t')
      by (unfold minused; destruct (_ >? _); lia).
    destruct (new_size_spec 64 3 8 minused eq_refl)
      as (k' & Hk' & Hn & Hgt & Hor).
    { change (2 ^ Z.of_nat (3 + 64)) with (8 * 2 ^ 64). lia. }
    assert (Hk64 : (k' <= 64)%nat).
    { destruct Hor as [->|Hor]; [lia|].
      assert (2 ^ (Z.of_nat k' - 1) < 2 ^ 64) by lia.
      apply Z.pow_lt_mono_r_iff in H; lia. }
    unfold CPython27.dictresize. fold minused. rewrite Hn.
    destruct (fold_insert_clean k' (CPython27.active_keys t') Hk64
                (repeat None (Z.to_nat (2 ^ Z.of_nat k'))))
      as [Hp' Hl'].
    + unfold len. rewrite repeat_length. lia.
    + rewrite used_empty, <- used_active. unfold len.
      rewrite repeat_length. lia.
    + rewrite active_keys_empty in Hp'. cbn [app] in Hp'.
      split; [|now rewrite Hp'].
      assert (Hsize : len (fold_left CPython27.insert_clean
                             (CPython27.active_keys t')
                             (repeat None (Z.to_nat (2 ^ Z.of_nat k'))))
                      = 2 ^ Z.of_nat k')
        by (unfold len; rewrite Hl', repeat_length; lia).
      assert (Hsame : CPython27.used
                        (fold_left CPython27.insert_clean
                           (CPython27.active_keys t')
                           (repeat None (Z.to_nat (2 ^ Z.of_nat k'))))
                      = CPython27.used t')
        by (rewrite !used_active; unfold len;
            now rewrite (Permutation_length Hp')).
      exists k'. rewrite Hsize, Hsame. repeat split; lia.
  - split; [|exact Hp]. exists k. repeat split; try lia.
Qed.

(** Keys that are all new and all different, assigned one after the other,
    are all in the table, and nothing else is. *)
Lemma fold_set_item (keys : list string) :
  forall t : CPython27.table,
  CPython27.table_ok t -> NoDup (CPython27.active_keys t ++ keys) ->
  CPython27.used t + len keys < 2 ^ 62 ->
  Permutation (CPython27.active_keys (fold_left CPython27.set_item keys t))
    (CPython27.active_keys t ++ keys).
Proof.
  induction keys as [|a keys IH]; intros t Hok Hnd Hbig; cbn [fold_left].
  - now rewrite app_nil_r.
  - pose proof (len_nonneg keys) as H0.
    assert (Ha : len (a :: keys) = 1 + len keys)
      by (unfold len; cbn [List.length]; lia).
    assert (Hnew : ~ In a (CPython27.active_keys t)).
    { apply NoDup_remove_2 in Hnd. intros Hin. apply Hnd.
      apply in_or_app. now left. }
    destruct (set_item_new t a Hok) as [Hok' Hp]; [lia|exact Hnew|].
    rewrite IH.
    + rewrite Hp. cbn [app]. apply Permutation_middle.
    + exact Hok'.
    + eapply Permutation_NoDup; [|exact Hnd].
      rewrite Hp. cbn [app]. symmetry. apply Permutation_middle.
    + rewrite used_active. unfold len at 1. rewrite (Permutation_length Hp).
      cbn [List.length]. rewrite used_active in Hbig. unfold len in *. lia.
Qed.

(** The dict of CPython 2.7 lists every key it holds exactly once, for any
    keys (fewer than [2 ^ 62]) in any order of insertion. *)
Lemma cpython27_iter_order_perm (first_inserted : list string) :
  NoDup first_inserted -> len first_inserted < 2 ^ 62 ->
  Permutation (CPython27.iter_order first_inserted) first_inserted.
Proof.
  intros Hnd Hbig. unfold CPython27.iter_order.
  rewrite fold_set_item; rewrite ?(active_keys_empty 8); cbn [app].
  - reflexivity.
  - exists 3%nat. rewrite (used_empty 8). repeat split; try lia.
  - exact Hnd.
  - rewrite (used_empty 8). lia.
Qed.

(** ** Writing a mapping and reading it back *)

Lemma serialize_container (iter_order : list string -> list string)
    (m : dict) :
  NoDup (keys m) -> Forall well_sized m -> len m < 2 ^ 64 ->
  Permutation (iter_order (keys m)) (keys m) ->
  serialize iter_order m = Ok (container_bytes (iteritems iter_order m)).
Proof.
  intros Hnd Hws Hn Hp.
  pose proof (iteritems_perm iter_order m Hnd Hp) as Hperm.
  unfold serialize, container_bytes, pack_Q.
  pose proof (len_nonneg m).
  destruct (Z.leb_spec 0 (len m)); [|lia].
  destruct (Z.ltb_spec (len m) (2 ^ 64)); [|lia]. cbn [andb bind].
  rewrite write_records_sized.
  - unfold len. now rewrite (Permutation_length Hperm).
  - eapply Permutation_Forall; [apply Permutation_sym; exact Hperm|exact Hws].
Qed.

(** Writing and reading back under any order of [iteritems] that lists
    every key once: the mapping read has the entries of the mapping
    written. *)
Lemma roundtrip_for_order
    (iter_order : list string -> list string) (m : dict) :
  NoDup (keys m) -> Forall well_sized m -> len m <= sys_maxint ->
  Permutation (iter_order (keys m)) (keys m) ->
  exists file m',
    serialize iter_order m = Ok file /\
    read_binary file [] = Ok m' /\
    Permutation m' m /\
    forall k, dict_get k m' = dict_get k m.
Proof.
  intros Hnd Hws Hn Hp.
  pose proof (iteritems_perm iter_order m Hnd Hp) as Hperm.
  assert (Hmax : sys_maxint < 2 ^ 64) by (unfold sys_maxint; lia).
  exists (container_bytes (iteritems iter_order m)), (iteritems iter_order m).
  split; [apply serialize_container; auto; lia|].
  split; [|split; [exact Hperm | intros k; now apply dict_get_perm]].
  rewrite <- (app_nil_r (container_bytes _)).
  rewrite read_binary_container.
  - apply (store_all_fresh _ []). cbn [app].
    eapply Permutation_NoDup;
      [apply Permutation_map, Permutation_sym; exact Hperm | exact Hnd].
  - eapply Permutation_Forall; [apply Permutation_sym; exact Hperm|exact Hws].
  - unfold len. rewrite (Permutation_length Hperm). exact Hn.
Qed.

(** C3: for every mapping [m] (keys all different, key and value lengths
    that fit the four-byte fields, fewer than [2 ^ 62] entries), writing
    [m] with the serialising part of [merge_opencl_binaries] succeeds, and
    reading the bytes written into an empty accumulator gives a mapping
    with exactly the entries of [m]: every key looks up to the same
    value. *)
Theorem write_then_read_roundtrip (m : dict) :
  NoDup (keys m) -> Forall well_sized m -> len m < 2 ^ 62 ->
  exists file m',
    serialize CPython27.iter_order m = Ok file /\
    read_binary file [] = Ok m' /\
    Permutation m' m /\
    forall k, dict_get k m' = dict_get k m.
Proof.
  intros Hnd Hws Hn.
  apply roundtrip_for_order; [exact Hnd | exact Hws | |].
  - unfold sys_maxint. lia.
  - apply cpython27_iter_order_perm; [exact Hnd|].
    unfold keys, len. rewrite length_map. exact Hn.
Qed.

(** ** Sources that are read one after the other *)

Lemma merge_kvs_app (fs : filesystem) (name : string)
    (dirs1 dirs2 : list string) :
  forall kvs,
  merge_kvs fs (dirs1 ++ dirs2) name kvs =
  (kvs1 <- merge_kvs fs dirs1 name kvs ;; merge_kvs fs dirs2 name kvs1).
Proof.
  induction dirs1 as [|d dirs1 IH]; intros kvs;
    [reflexivity|cbn [app]; rewrite !merge_kvs_step].
  destruct (fs _) as [[buf|]|]; [|reflexivity|apply IH].
  destruct (read_binary buf kvs); cbn [bind]; [apply IH|reflexivity].
Qed.

(** C5 (as amended): within one file a key that occurs in several records
    ends up with the value of its last record, for every key other than the
    platform info key.  The platform info key keeps the first value stored
    for it, in this file or before it, and its later records are checked
    against that value, within the file as across files; the file is read
    without an exception unless that check fails. *)
Theorem single_file_last_write_wins
    (records : list (string * bytes)) (kvs0 : dict) :
  Forall well_sized records -> len records <= sys_maxint ->
  match read_binary (container_bytes records) kvs0 with
  | Ok kvs =>
      (forall k v, k <> platform_info_key ->
                   last_value k records = Some v -> dict_get k kvs = Some v) /\
      dict_get platform_info_key kvs =
        match dict_get platform_info_key kvs0 with
        | Some v0 => Some v0
        | None => first_value platform_info_key records
        end
  | Err e =>
      In platform_info_key (keys records) /\
      (e = ConflictingPlatformInfo \/ e = AttributeError)
  end.
Proof.
  intros Hws Hn.
  rewrite <- (app_nil_r (container_bytes records)).
  rewrite read_binary_container by assumption.
  destruct (store_all records kvs0) as [kvs|e] eqn:E.
  - split; [|exact (store_all_platform_info _ _ _ E)].
    intros k v Hk Hl. exact (store_all_last k v records Hk _ _ E Hl).
  - exact (store_all_err _ _ _ E).
Qed.

(** C6: a key other than the platform info key that the container read
    last maps to [v2] maps to [v2] in the merged accumulator, whatever the
    containers read before it held for that key. *)
Theorem later_source_overwrites (fs : filesystem) (name : string)
    (earlier : list string) (dir_b : string)
    (records_b : list (string * bytes)) (k : string) (v2 : bytes)
    (kvs0 kvs : dict) :
  fs (os_path_join dir_b name) = Some (File (container_bytes records_b)) ->
  Forall well_sized records_b -> len records_b <= sys_maxint ->
  k <> platform_info_key -> last_value k records_b = Some v2 ->
  merge_kvs fs (earlier ++ [dir_b]) name kvs0 = Ok kvs ->
  dict_get k kvs = Some v2.
Proof.
  intros Hfile Hws Hn Hk Hl. rewrite merge_kvs_app.
  destruct (merge_kvs fs earlier name kvs0) as [kvs1|]; cbn [bind];
    [|discriminate].
  rewrite merge_kvs_step, Hfile. cbn [merge_kvs].
  rewrite <- (app_nil_r (container_bytes records_b)).
  rewrite read_binary_container by assumption.
  destruct (store_all records_b kvs1) as [kvs2|] eqn:E; cbn [bind];
    [|discriminate].
  intros [= <-]. exact (store_all_last k v2 records_b Hk _ _ E Hl).
Qed.

(** ** Sources that are missing *)

Lemma merge_kvs_skip (fs : filesystem) (name : string) (dir : string)
    (before after : list string) (kvs : dict) :
  fs (os_path_join dir name) = None ->
  merge_kvs fs (before ++ dir :: after) name kvs =
  merge_kvs fs (before ++ after) name kvs.
Proof.
  intros Hmiss. rewrite !merge_kvs_app.
  destruct (merge_kvs fs before name kvs); cbn [bind]; [|reflexivity].
  now rewrite merge_kvs_step, Hmiss.
Qed.

(** C7: a source directory whose file does not exist when the loop comes
    to it is passed over without an error, wherever it stands in the
    sequence and whatever the accumulator holds: the loop over the sources
    gives the accumulator, or the exception, that it gives on the sequence
    without that directory.  The file system is the one the loop runs in,
    after lines 402 to 404 have seen to the output directory. *)
Theorem missing_source_skipped (fs : filesystem) (name : string)
    (dir : string) (before after : list string) (kvs : dict) :
  fs (os_path_join dir name) = None ->
  merge_kvs fs (before ++ dir :: after) name kvs =
  merge_kvs fs (before ++ after) name kvs.
Proof. intros Hmiss. now apply merge_kvs_skip. Qed.

(** ** Files that stop short *)





(** A slice that asks for more than is left gets what is left. *)
Lemma py_slice_short {A} (buf pre rest : list A) (i n : Z) :
  buf = pre ++ rest -> i = len pre -> len rest <= n ->
  py_slice buf i (i + n) = rest.
Proof.
  intros Hb Hi Hn. pose proof (len_nonneg rest).
  rewrite (py_slice_from buf pre rest) by (assumption || lia).
  apply firstn_all2. unfold len in *. lia.
Qed.






Lemma store_all_app (r1 r2 : list (string * bytes)) :
  forall kvs,
  store_all (r1 ++ r2) kvs = (kvs' <- store_all r1 kvs ;; store_all r2 kvs').
Proof.
  induction r1 as [|[k v] r1 IH]; intros kvs; cbn [app store_all bind];
    [reflexivity|].
  destruct (store k v kvs); cbn [bind]; [apply IH|reflexivity].
Qed.




(** ** The check on the platform info key *)

Lemma zip_eqb_refl (a : bytes) :
  forallb (fun p => Byte.eqb (fst p) (snd p)) (combine a a) = true.
Proof.
  induction a as [|x a IH]; [reflexivity|]. cbn [combine forallb fst snd].
  now rewrite IH, (Byte.byte_dec_lb (eq_refl x)).
Qed.

Lemma zip_eqb_diff (a : bytes) :
  forall b, List.length a = List.length b -> a <> b ->
  forallb (fun p => Byte.eqb (fst p) (snd p)) (combine a b) = false.
Proof.
  induction a as [|x a IH]; intros [|y b] Hl Hne; try discriminate;
    [congruence|].
  cbn [combine forallb fst snd].
  destruct (Byte.eqb x y) eqn:E; [|reflexivity].
  apply Byte.byte_dec_bl in E. subst y. cbn [andb].
  apply IH; [now injection Hl | congruence].
Qed.

(** For a new value of the length of the one in place the check is exact:
    the same bytes leave the accumulator as it is, any other bytes end the
    call through [mace_check]. *)
Lemma platform_info_identical (value : bytes) (kvs : dict) :
  dict_get platform_info_key kvs = Some value ->
  store platform_info_key value kvs = Ok kvs.
Proof.
  intros Hget. unfold store, np_eq_all.
  now rewrite Hget, String.eqb_refl, Nat.eqb_refl, zip_eqb_refl.
Qed.

Lemma platform_info_same_length (old value : bytes) (kvs : dict) :
  dict_get platform_info_key kvs = Some old ->
  List.length old = List.length value -> old <> value ->
  store platform_info_key value kvs = Err ConflictingPlatformInfo.
Proof.
  intros Hget Hl Hne. unfold store, np_eq_all.
  rewrite Hget, String.eqb_refl, Hl, Nat.eqb_refl.
  now rewrite zip_eqb_diff.
Qed.

(** C1 does not hold of the code: the platform info key is in the
    accumulator with the one byte [05], a later source brings the two bytes
    [05 05] for it, and the merge goes through and keeps [05].  The
    comparison broadcasts the single byte over the longer value. *)
Theorem platform_info_broadcast_accepted :
  merge_kvs platform_fs ["x/opencl_bin"; "y/opencl_bin"]%string "cl.bin" []
    = Ok [(platform_info_key, [x05])] /\
  exists fs',
    merge_opencl_binaries CPython27.iter_order mkdir_parents platform_fs
      ["x"; "y"]%string "cl.bin" "out/cl.bin" = Ok fs' /\
    fs' "out/cl.bin"%string
      = Some (File (container_bytes [(platform_info_key, [x05])])).
Proof.
  split; [vm_compute; reflexivity|].
  exists (fs_write platform_fs "out/cl.bin"
            (container_bytes [(platform_info_key, [x05])])).
  split; vm_compute; reflexivity.
Qed.

(** ** The order of the records in the output *)

Lemma fs_write_same (fs : filesystem) (path : string) (content : bytes) :
  fs_write fs path content path = Some (File content).
Proof. unfold fs_write. now rewrite String.eqb_refl. Qed.

Lemma tofile_ok (fs fs' : filesystem) (path : string) (content : bytes) :
  tofile fs path content = Ok fs' -> fs' = fs_write fs path content.
Proof.
  unfold tofile.
  destruct (fs (os_path_dirname path)) as [[|]|]; try discriminate.
  destruct (fs path) as [[|]|]; try discriminate; now intros [= <-].
Qed.

(** Making the output directory adds directories where nothing was and
    changes nothing else. *)
Lemma make_output_dir_adds
    (mkdir_made : string -> filesystem -> option (string -> bool))
    (fs fs1 : filesystem) (output_file_path : string) :
  make_output_dir mkdir_made fs output_file_path = Ok fs1 ->
  forall p, fs1 p = fs p \/ (fs p = None /\ fs1 p = Some Directory).
Proof.
  unfold make_output_dir, mkdir_p.
  destruct (fs (os_path_dirname output_file_path));
    [intros [= <-] p; now left|].
  destruct (String.eqb (os_path_dirname output_file_path) "");
    [discriminate|].
  destruct (mkdir_made _ fs) as [made|]; [|discriminate].
  intros [= <-] p. destruct (fs p); [now left|].
  destruct (_ || _); [right|left]; auto.
Qed.

Lemma make_output_dir_keeps
    (mkdir_made : string -> filesystem -> option (string -> bool))
    (fs fs1 : filesystem) (output_file_path : string) :
  make_output_dir mkdir_made fs output_file_path = Ok fs1 ->
  forall p n, fs p = Some n -> fs1 p = Some n.
Proof.
  intros H p n Hp.
  destruct (make_output_dir_adds _ _ _ _ H p) as [->|[Hnone _]];
    congruence.
Qed.

(** A loop that went through among added directories met none of them, and
    goes through without them. *)
Lemma merge_kvs_added_dirs (fs fs1 : filesystem) (name : string)
    (dirs : list string) :
  (forall p, fs1 p = fs p \/ (fs p = None /\ fs1 p = Some Directory)) ->
  forall kvs kvs', merge_kvs fs1 dirs name kvs = Ok kvs' ->
  merge_kvs fs dirs name kvs = Ok kvs'.
Proof.
  intros Hadd. induction dirs as [|d dirs IH]; intros kvs kvs';
    [exact (fun H => H)|rewrite !merge_kvs_step].
  destruct (Hadd (os_path_join d name)) as [->|[-> ->]]; [|discriminate].
  destruct (fs (os_path_join d name)) as [[buf|]|]; [|discriminate|apply IH].
  destruct (read_binary buf kvs); cbn [bind]; [apply IH|discriminate].
Qed.

(** The output under any order of [iteritems]: the record count of the
    accumulator, then its entries in that order; when the order lists every
    key once every entry is written once. *)
Lemma output_for_order
    (iter_order : list string -> list string)
    (mkdir_made : string -> filesystem -> option (string -> bool))
    (fs fs' : filesystem)
    (binaries_dirs : list string) (name output_file_path : string) :
  merge_opencl_binaries iter_order mkdir_made fs binaries_dirs name
    output_file_path = Ok fs' ->
  exists kvs,
    merge_kvs fs (map (fun d => os_path_join d "opencl_bin") binaries_dirs)
      name [] = Ok kvs /\
    fs' output_file_path =
      Some (File (le_encode 8 (len kvs)
                    ++ flat_map record_bytes (iteritems iter_order kvs))) /\
    (Permutation (iter_order (keys kvs)) (keys kvs) ->
     Permutation (iteritems iter_order kvs) kvs).
Proof.
  unfold merge_opencl_binaries.
  destruct (make_output_dir mkdir_made fs output_file_path) as [fs1|] eqn:D;
    cbn [bind]; [|discriminate].
  destruct (merge_kvs fs1 _ name []) as [kvs|] eqn:E; cbn [bind];
    [|discriminate].
  unfold serialize, pack_Q.
  destruct ((0 <=? len kvs) && (len kvs <? 2 ^ 64)); cbn [bind];
    [|discriminate].
  destruct (write_records _ _) as [out|] eqn:W; cbn [bind]; [|discriminate].
  intros Hw. apply tofile_ok in Hw. subst fs'. exists kvs.
  split.
  { exact (merge_kvs_added_dirs _ _ _ _
             (make_output_dir_adds _ _ _ _ D) _ _ E). }
  apply write_records_ok in W. destruct W as [-> _].
  split; [apply fs_write_same|].
  apply iteritems_perm. apply (merge_kvs_nodup _ _ _ _ _ E). constructor.
Qed.

(** C4 (as amended): the output holds the record count of the accumulator
    and then its entries in the order in which the dict lists its keys,
    which is the order of the slots of its hash table; every entry of the
    accumulator is written once (for a dict of fewer than [2 ^ 62] keys).
    The bytes are a function of the sources alone. *)
Theorem output_in_dict_order
    (mkdir_made : string -> filesystem -> option (string -> bool))
    (fs fs' : filesystem)
    (binaries_dirs : list string) (name output_file_path : string) :
  merge_opencl_binaries CPython27.iter_order mkdir_made fs binaries_dirs name
    output_file_path = Ok fs' ->
  exists kvs,
    merge_kvs fs (map (fun d => os_path_join d "opencl_bin") binaries_dirs)
      name [] = Ok kvs /\
    fs' output_file_path =
      Some (File (le_encode 8 (len kvs)
                    ++ flat_map record_bytes
                         (iteritems CPython27.iter_order kvs))) /\
    (len kvs < 2 ^ 62 -> Permutation (iteritems CPython27.iter_order kvs) kvs).
Proof.
  intros H.
  destruct (output_for_order _ _ _ _ _ _ _ H) as (kvs & Hm & Hout & Hp).
  exists kvs. split; [exact Hm|]. split; [exact Hout|].
  intros Hn. apply Hp. apply cpython27_iter_order_perm.
  - apply (merge_kvs_nodup _ _ _ _ _ Hm). constructor.
  - unfold keys, len. rewrite length_map. exact Hn.
Qed.

(** C4 (as the specification has it) does not hold: with the key [b] read
    first and the key [a] after it, the dict of CPython 2.7 lists [a]
    before [b], and so does the output. *)
Lemma output_not_in_insertion_order :
  ~ (forall mkdir_made fs fs' binaries_dirs name output_file_path,
       merge_opencl_binaries CPython27.iter_order mkdir_made fs
         binaries_dirs name output_file_path = Ok fs' ->
       exists kvs,
         merge_kvs fs
           (map (fun d => os_path_join d "opencl_bin") binaries_dirs)
           name [] = Ok kvs /\
         fs' output_file_path = Some (File (container_bytes kvs))).
Proof.
  intros Hclaim.
  destruct (Hclaim mkdir_parents letters_fs _ ["x"; "y"]%string
              "cl.bin"%string "out/cl.bin"%string eq_refl)
    as (kvs & Hkvs & Hout).
  assert (Hm : merge_kvs letters_fs
                 (map (fun d => os_path_join d "opencl_bin")
                    ["x"; "y"]%string) "cl.bin" []
               = Ok [("b"%string, [x01]); ("a"%string, [x02])])
    by reflexivity.
  rewrite Hm in Hkvs. injection Hkvs as <-.
  vm_compute in Hout. discriminate.
Qed.

(** C5 (as the specification has it) does not hold: one file with two
    records for the platform info key, of values [01] and [02], is not read
    with the last one winning; the second record fails the check. *)
Lemma platform_info_checked_within_file :
  ~ (forall records,
       Forall well_sized records -> len records <= sys_maxint ->
       exists kvs,
         read_binary (container_bytes records) [] = Ok kvs /\
         forall k v, last_value k records = Some v ->
                     dict_get k kvs = Some v).
Proof.
  intros Hclaim.
  destruct (Hclaim [(platform_info_key, [x01]); (platform_info_key, [x02])])
    as (kvs & Hread & _).
  - repeat constructor; cbn; lia.
  - unfold sys_maxint. cbn. lia.
  - assert (Herr : read_binary
                     (container_bytes
                        [(platform_info_key, [x01]);
                         (platform_info_key, [x02])]) []
                   = Err ConflictingPlatformInfo) by reflexivity.
    congruence.
Qed.

(** ** The device lock *)

Lemma device_lock_path_inj (d1 d2 : string) :
  device_lock_path d1 = device_lock_path d2 -> d1 = d2.
Proof.
  unfold device_lock_path.
  generalize "/tmp/device-lock-"%string as prefix.
  induction prefix as [|c prefix IH]; cbn; [tauto|].
  intros [= H]. exact (IH H).
Qed.


(** C9: the lock path is ["/tmp/device-lock-"] followed by the serial
    number, two different serial numbers give two different paths, and the
    locks that [device_lock] makes for two different devices are on
    different files, whatever their timeouts.  So the locks do not block
    each other: once the lock of one device is taken, the lock file of the
    other is held or free as it was before, and when it was free
    [acquire] on the lock of the other device takes it at once, after
    which both are held. *)
Theorem distinct_devices_distinct_locks (d1 d2 : string) :
  d1 <> d2 ->
  device_lock_path d1 = ("/tmp/device-lock-" ++ d1)%string /\
  device_lock_path d1 <> device_lock_path d2 /\
  forall (t t' : option Q) (held held' : locks),
    lock_file (device_lock d1 t) <> lock_file (device_lock d2 t') /\
    (acquire (device_lock d1 t) held = Acquired held' ->
     held' (lock_file (device_lock d2 t'))
       = held (lock_file (device_lock d2 t')) /\
     (held (lock_file (device_lock d2 t')) = false ->
      exists both,
        acquire (device_lock d2 t') held' = Acquired both /\
        both (lock_file (device_lock d1 t)) = true /\
        both (lock_file (device_lock d2 t')) = true)).
Proof.
  intros Hne. split; [reflexivity|].
  assert (Hp : device_lock_path d1 <> device_lock_path d2)
    by (intros H; apply Hne; now apply device_lock_path_inj).
  split; [exact Hp|]. intros t t' held held'.
  cbn [device_lock lock_file]. split; [exact Hp|].
  unfold acquire at 1. cbn [device_lock lock_file].
  destruct (held (device_lock_path d1)).
  { destruct (Qle_bool 0 _); discriminate. }
  intros [= <-].
  assert (Hother : set_lock held (device_lock_path d1) true
                     (device_lock_path d2) = held (device_lock_path d2)).
  { unfold set_lock.
    destruct (String.eqb_spec (device_lock_path d2) (device_lock_path d1));
      [congruence|reflexivity]. }
  split; [exact Hother|]. intros Hfree.
  unfold acquire. cbn [device_lock lock_file]. rewrite Hother, Hfree.
  eexists. split; [reflexivity|]. unfold set_lock. split.
  - destruct (String.eqb (device_lock_path d1) (device_lock_path d2));
      [reflexivity|]. now rewrite String.eqb_refl.
  - now rewrite String.eqb_refl.
Qed.

(** C10: [device_lock] without a timeout makes a lock on the path of the
    device with a timeout of 3600 seconds; a timeout that is given is the
    timeout of the lock. *)
Theorem device_lock_timeout (serialno : string) :
  device_lock serialno None
    = {| lock_file := device_lock_path serialno; timeout := 3600 |} /\
  forall t : Q,
    device_lock serialno (Some t)
      = {| lock_file := device_lock_path serialno; timeout := t |}.
Proof. split; [reflexivity|]. intros t. reflexivity. Qed.

(** ** The theorems at work on the sample sources *)


Lemma write_then_read_roundtrip_witness :
  let m := [("b"%string, [x01; x02]); ("a"%string, [x00; xff])] in
  NoDup (keys m) /\ Forall well_sized m /\ len m < 2 ^ 62 /\
  exists file m',
    serialize CPython27.iter_order m = Ok file /\
    read_binary file [] = Ok m' /\
    Permutation m' m /\
    forall k, dict_get k m' = dict_get k m.
Proof.
  intros m.
  assert (H1 : NoDup (keys m)).
  { repeat constructor; cbn; [|tauto]. intros [H|[]]. discriminate. }
  assert (H2 : Forall well_sized m) by (repeat constructor; cbn; lia).
  assert (H3 : len m < 2 ^ 62) by (cbn; lia).
  refine (conj H1 (conj H2 (conj H3 _))).
  exact (write_then_read_roundtrip m H1 H2 H3).
Defined.

Lemma output_in_dict_order_witness :
  let fs' :=
    fs_write letters_fs "out/cl.bin"
      (container_bytes [("a"%string, [x02]); ("b"%string, [x01])]) in
  merge_opencl_binaries CPython27.iter_order mkdir_parents letters_fs
    ["x"; "y"]%string "cl.bin" "out/cl.bin" = Ok fs' /\
  exists kvs,
    merge_kvs letters_fs
      (map (fun d => os_path_join d "opencl_bin") ["x"; "y"]%string)
      "cl.bin" [] = Ok kvs /\
    fs' "out/cl.bin"%string =
      Some (File (le_encode 8 (len kvs)
                    ++ flat_map record_bytes
                         (iteritems CPython27.iter_order kvs))) /\
    (len kvs < 2 ^ 62 -> Permutation (iteritems CPython27.iter_order kvs) kvs).
Proof.
  intros fs'.
  assert (H : merge_opencl_binaries CPython27.iter_order mkdir_parents
                letters_fs ["x"; "y"]%string "cl.bin" "out/cl.bin" = Ok fs')
    by (vm_compute; reflexivity).
  split; [exact H|].
  exact (output_in_dict_order mkdir_parents letters_fs fs' ["x"; "y"]%string
           "cl.bin" "out/cl.bin" H).
Defined.

Lemma single_file_last_write_wins_witness :
  let records :=
    [("k"%string, [x01]); (platform_info_key, [x07]); ("k"%string, [x02])] in
  Forall well_sized records /\ len records <= sys_maxint /\
  match read_binary (container_bytes records) [] with
  | Ok kvs =>
      (forall k v, k <> platform_info_key ->
                   last_value k records = Some v -> dict_get k kvs = Some v) /\
      dict_get platform_info_key kvs =
        match dict_get platform_info_key [] with
        | Some v0 => Some v0
        | None => first_value platform_info_key records
        end
  | Err e =>
      In platform_info_key (keys records) /\
      (e = ConflictingPlatformInfo \/ e = AttributeError)
  end.
Proof.
  intros records.
  assert (H1 : Forall well_sized records) by (repeat constructor; cbn; lia).
  assert (H2 : len records <= sys_maxint) by (unfold sys_maxint; cbn; lia).
  split; [exact H1|]. split; [exact H2|].
  exact (single_file_last_write_wins records [] H1 H2).
Defined.

Lemma later_source_overwrites_witness :
  let records_b := [("conv2d"%string, [x0c; x0d; x0e])] in
  let kvs := [("conv2d"%string, [x0c; x0d; x0e])] in
  program_fs (os_path_join "y/opencl_bin" "cl.bin")
    = Some (File (container_bytes records_b)) /\
  Forall well_sized records_b /\ len records_b <= sys_maxint /\
  "conv2d"%string <> platform_info_key /\
  last_value "conv2d" records_b = Some [x0c; x0d; x0e] /\
  merge_kvs program_fs (["x/opencl_bin"%string] ++ ["y/opencl_bin"%string])
    "cl.bin" [] = Ok kvs /\
  dict_get "conv2d" kvs = Some [x0c; x0d; x0e].
Proof.
  intros records_b kvs.
  assert (H1 : program_fs (os_path_join "y/opencl_bin" "cl.bin")
               = Some (File (container_bytes records_b))) by reflexivity.
  assert (H2 : Forall well_sized records_b) by (repeat constructor; cbn; lia).
  assert (H3 : len records_b <= sys_maxint) by (unfold sys_maxint; cbn; lia).
  assert (H4 : "conv2d"%string <> platform_info_key) by discriminate.
  assert (H5 : last_value "conv2d" records_b = Some [x0c; x0d; x0e])
    by reflexivity.
  assert (H6 : merge_kvs program_fs
                 (["x/opencl_bin"%string] ++ ["y/opencl_bin"%string])
                 "cl.bin" [] = Ok kvs) by reflexivity.
  refine (conj H1 (conj H2 (conj H3 (conj H4 (conj H5 (conj H6 _)))))).
  exact (later_source_overwrites program_fs "cl.bin" ["x/opencl_bin"%string]
           "y/opencl_bin" records_b "conv2d" [x0c; x0d; x0e] [] kvs
           H1 H2 H3 H4 H5 H6).
Defined.

Lemma missing_source_skipped_witness :
  letters_fs (os_path_join "missing/opencl_bin" "cl.bin") = None /\
  merge_kvs letters_fs
    (["x/opencl_bin"%string] ++ "missing/opencl_bin"%string
       :: ["y/opencl_bin"%string]) "cl.bin" [] =
  merge_kvs letters_fs
    (["x/opencl_bin"%string] ++ ["y/opencl_bin"%string]) "cl.bin" [].
Proof.
  assert (H : letters_fs (os_path_join "missing/opencl_bin" "cl.bin") = None)
    by reflexivity.
  split; [exact H|].
  exact (missing_source_skipped letters_fs "cl.bin" "missing/opencl_bin"
           ["x/opencl_bin"%string] ["y/opencl_bin"%string] [] H).
Defined.

Lemma distinct_devices_distinct_locks_witness :
  "emulator-5554"%string <> "emulator-5556"%string /\
  device_lock_path "emulator-5554"
    = ("/tmp/device-lock-" ++ "emulator-5554")%string /\
  device_lock_path "emulator-5554" <> device_lock_path "emulator-5556" /\
  forall (t t' : option Q) (held held' : locks),
    lock_file (device_lock "emulator-5554" t)
      <> lock_file (device_lock "emulator-5556" t') /\
    (acquire (device_lock "emulator-5554" t) held = Acquired held' ->
     held' (lock_file (device_lock "emulator-5556" t'))
       = held (lock_file (device_lock "emulator-5556" t')) /\
     (held (lock_file (device_lock "emulator-5556" t')) = false ->
      exists both,
        acquire (device_lock "emulator-5556" t') held' = Acquired both /\
        both (lock_file (device_lock "emulator-5554" t)) = true /\
        both (lock_file (device_lock "emulator-5556" t')) = true)).
Proof.
  assert (H : "emulator-5554"%string <> "emulator-5556"%string)
    by discriminate.
  split; [exact H|].
  exact (distinct_devices_distinct_locks "emulator-5554" "emulator-5556" H).
Defined.

(** * Further properties *)

(** ** Splitting and searching strings *)

Lemma split_char_nonempty (sep : ascii) (s : string) :
  split_char sep s <> [].
Proof.
  destruct s as [|c s]; cbn [split_char]; [discriminate|].
  destruct (Ascii.eqb c sep); [discriminate|].
  destruct (split_char sep s); discriminate.
Qed.

(** The pieces of [a + sep + b] are the pieces of [a] and then those of
    [b]. *)
Lemma split_char_app (sep : ascii) (a b : string) :
  split_char sep (a ++ String sep b) = split_char sep a ++ split_char sep b.
Proof.
  induction a as [|c a IH]; cbn [String.append split_char].
  - now rewrite Ascii.eqb_refl.
  - destruct (Ascii.eqb c sep); [now rewrite IH|].
    rewrite IH. pose proof (split_char_nonempty sep a) as Hne.
    destruct (split_char sep a); [contradiction|reflexivity].
Qed.

Lemma prefix_cons (c d : ascii) (n h : string) :
  String.prefix (String c n) (String d h) = Ascii.eqb c d && String.prefix n h.
Proof.
  cbn [String.prefix]. destruct (Ascii.ascii_dec c d) as [->|Hne].
  - now rewrite Ascii.eqb_refl.
  - apply Ascii.eqb_neq in Hne. now rewrite Hne.
Qed.

Lemma prefix_nil_l (h : string) : String.prefix EmptyString h = true.
Proof. now destruct h. Qed.

Lemma contains_nil (n : string) :
  contains n EmptyString = match n with EmptyString => true | _ => false end.
Proof. destruct n; reflexivity. Qed.

Lemma first_piece_prefix (sep : ascii) (s : string) :
  forall n : string,
  existsb (Ascii.eqb sep) (list_ascii_of_string n) = false ->
  String.prefix n (hd EmptyString (split_char sep s)) = String.prefix n s.
Proof.
  induction s as [|c s IH]; intros n Hn; [reflexivity|].
  cbn [split_char].
  destruct n as [|d n]; [now rewrite !prefix_nil_l|].
  cbn [list_ascii_of_string existsb] in Hn.
  apply orb_false_elim in Hn. destruct Hn as [Hd Hn].
  destruct (Ascii.eqb c sep) eqn:E.
  - apply Ascii.eqb_eq in E. subst c. cbn [hd].
    rewrite prefix_cons, Ascii.eqb_sym, Hd. reflexivity.
  - specialize (IH n Hn).
    destruct (split_char sep s) as [|piece others]; cbn [hd] in *;
      rewrite !prefix_cons; now rewrite IH.
Qed.

(** A string without the separator lies in one of the pieces exactly when
    it lies in the whole. *)
Lemma contains_split (sep : ascii) (n : string) :
  n <> EmptyString ->
  existsb (Ascii.eqb sep) (list_ascii_of_string n) = false ->
  forall s, existsb (contains n) (split_char sep s) = contains n s.
Proof.
  intros Hne Hn. induction s as [|c s IH].
  - cbn [split_char existsb]. apply orb_false_r.
  - pose proof (first_piece_prefix sep (String c s) n Hn) as Hfirst.
    cbn [split_char] in *. cbn [contains].
    destruct (Ascii.eqb c sep) eqn:E.
    + cbn [existsb hd] in *. rewrite IH, contains_nil.
      destruct n as [|d n]; [contradiction|]. cbn [orb].
      rewrite <- Hfirst. reflexivity.
    + destruct (split_char sep s) as [|piece others] eqn:Es.
      { exfalso. now apply (split_char_nonempty sep s). }
      cbn [existsb hd] in *. fold (contains n s). rewrite <- IH.
      cbn [contains]. rewrite Hfirst, <- !orb_assoc. reflexivity.
Qed.

Lemma existsb_or {A} (f g : A -> bool) (l : list A) :
  existsb (fun x => f x || g x) l = existsb f l || existsb g l.
Proof.
  induction l as [|x l IH]; [reflexivity|]. cbn [existsb]. rewrite IH.
  destruct (f x), (g x), (existsb f l); reflexivity.
Qed.

Lemma stdout_success_lines_exists (l : list string) :
  stdout_success_lines l =
  negb (existsb
          (fun line => contains "Aborted" line || contains "FAILED" line
                       || contains "Segmentation fault" line) l).
Proof.
  induction l as [|line l IH]; [reflexivity|].
  cbn [stdout_success_lines existsb]. rewrite IH.
  now destruct (_ || _ || _).
Qed.

(** ** [stdout_success] *)

(** X1: The output of a run counts as a success exactly when none of the three
    marks stands anywhere in it; cutting it into lines changes nothing. *)
Theorem stdout_success_no_mark (stdout : string) :
  stdout_success stdout =
  negb (contains "Aborted" stdout || contains "FAILED" stdout
        || contains "Segmentation fault" stdout).
Proof.
  unfold stdout_success. rewrite stdout_success_lines_exists.
  rewrite !existsb_or.
  rewrite !contains_split by (discriminate || reflexivity).
  reflexivity.
Qed.

Lemma stdout_success_lines_app (l1 l2 : list string) :
  stdout_success_lines (l1 ++ l2) =
  stdout_success_lines l1 && stdout_success_lines l2.
Proof.
  induction l1 as [|line l1 IH]; [reflexivity|].
  cbn [app stdout_success_lines]. now destruct (_ || _ || _).
Qed.

(** X2: The output of two runs, one after the other on separate lines, is a
    success exactly when both are. *)
Theorem stdout_success_two_runs (first second : string) :
  stdout_success (first ++ String "010" second) =
  stdout_success first && stdout_success second.
Proof.
  unfold stdout_success. now rewrite split_char_app, stdout_success_lines_app.
Qed.

(** ** [bazel_target_to_bin] *)

Lemma split_char_absent (sep : ascii) (s : string) :
  all_chars (fun c => negb (Ascii.eqb c sep)) s = true ->
  split_char sep s = [s].
Proof.
  unfold all_chars. induction s as [|c s IH]; [reflexivity|].
  cbn [list_ascii_of_string forallb split_char]. intros H.
  apply andb_prop in H. destruct H as [Hc Hs].
  apply negb_true_iff in Hc. rewrite Hc, (IH Hs). reflexivity.
Qed.

Lemma split_char_length (sep : ascii) (s : string) :
  List.length (split_char sep s) =
  S (count_occ Ascii.ascii_dec (list_ascii_of_string s) sep).
Proof.
  induction s as [|c s IH]; [reflexivity|].
  cbn [split_char list_ascii_of_string count_occ].
  destruct (Ascii.ascii_dec c sep) as [->|Hne].
  - rewrite Ascii.eqb_refl. cbn [List.length]. now rewrite IH.
  - apply Ascii.eqb_neq in Hne. rewrite Hne.
    pose proof (split_char_nonempty sep s) as Hn.
    destruct (split_char sep s); [contradiction|exact IH].
Qed.

Lemma replace_double_slash_absent (s : string) :
  contains "//" s = false -> replace_double_slash s = s.
Proof.
  induction s as [|c s IH]; [reflexivity|].
  cbn [contains]. intros H. apply orb_false_elim in H. destruct H as [Hp Hs].
  cbn [replace_double_slash]. destruct s as [|c' s']; [reflexivity|].
  rewrite !prefix_cons, prefix_nil_l, andb_true_r in Hp.
  rewrite (Ascii.eqb_sym c), (Ascii.eqb_sym c'), Hp.
  now rewrite (IH Hs).
Qed.

(** X3: A label [//package:name] is taken to the directory [bazel-bin/package]
    and the file [name], when neither part has a colon and the package has
    no double slash. *)
Theorem bazel_label_to_bin (package name : string) :
  all_chars (fun c => negb (Ascii.eqb c ":")) package = true ->
  all_chars (fun c => negb (Ascii.eqb c ":")) name = true ->
  contains "//" package = false ->
  bazel_target_to_bin ("//" ++ package ++ String ":" name)
  = Returns (("bazel-bin/" ++ package)%string, name).
Proof.
  intros Hp Hn Hs. unfold bazel_target_to_bin.
  change ("//" ++ package ++ String ":" name)%string
    with (("//" ++ package) ++ String ":" name)%string.
  rewrite split_char_app.
  rewrite (split_char_absent ":" ("//" ++ package)),
    (split_char_absent ":" name); [ | exact Hn | exact Hp ].
  cbn [app]. change ("//" ++ package)%string
    with (String "/" (String "/" package)).
  cbn [replace_double_slash Ascii.eqb Bool.eqb andb].
  rewrite (replace_double_slash_absent package Hs).
  now rewrite prefix_cons, prefix_nil_l.
Qed.

(** X4: The call raises [ValueError], from the unpacking of the split, exactly
    when the target does not have one colon and only one. *)
Theorem bazel_target_colons (target : string) :
  bazel_target_to_bin target = Raises ValueError <->
  count_occ Ascii.ascii_dec (list_ascii_of_string target) ":"%char <> 1%nat.
Proof.
  pose proof (split_char_length ":" target) as Hl.
  unfold bazel_target_to_bin.
  destruct (split_char ":" target) as [|a [|b [|c l]]]; cbn [List.length] in Hl;
    split; intros H; try reflexivity; try discriminate; try lia.
Qed.

(** ** [split_stdout] *)

Lemma split_char_pieces (sep : ascii) (s : string) :
  forall piece, In piece (split_char sep s) ->
  all_chars (fun c => negb (Ascii.eqb c sep)) piece = true.
Proof.
  unfold all_chars. induction s as [|c s IH]; intros piece; cbn [split_char].
  - intros [<-|[]]. reflexivity.
  - destruct (Ascii.eqb c sep) eqn:E.
    + intros [<-|Hin]; [reflexivity|now apply IH].
    + destruct (split_char sep s) as [|p others].
      * intros [<-|[]]. cbn. now rewrite E.
      * intros [<-|Hin].
        -- cbn [list_ascii_of_string forallb]. rewrite E. cbn [negb andb].
           apply IH. now left.
        -- apply IH. now right.
Qed.

Lemma lstrip_all_chars (q : ascii -> bool) (s : string) :
  all_chars q s = true -> all_chars q (lstrip s) = true.
Proof.
  unfold all_chars. induction s as [|c s IH]; [reflexivity|].
  cbn [lstrip]. destruct (is_space c); [|tauto].
  cbn [list_ascii_of_string forallb]. intros H.
  apply andb_prop in H. now apply IH.
Qed.

Lemma rstrip_all_chars (q : ascii -> bool) (s : string) :
  all_chars q s = true -> all_chars q (rstrip s) = true.
Proof.
  unfold all_chars. induction s as [|c s IH]; [reflexivity|].
  cbn [list_ascii_of_string forallb]. intros H.
  apply andb_prop in H. destruct H as [Hc Hs]. specialize (IH Hs).
  cbn [rstrip]. destruct (rstrip s) as [|c' kept].
  - destruct (is_space c); cbn; [reflexivity|now rewrite Hc].
  - cbn [list_ascii_of_string forallb] in *. now rewrite Hc.
Qed.

Lemma rstrip_idem (s : string) : rstrip (rstrip s) = rstrip s.
Proof.
  induction s as [|c s IH]; [reflexivity|]. cbn [rstrip].
  destruct (rstrip s) as [|c' kept] eqn:E.
  - destruct (is_space c) eqn:Ec; [reflexivity|]. cbn [rstrip]. now rewrite Ec.
  - cbn [rstrip] in IH |- *. now rewrite IH.
Qed.

Lemma lstrip_head (s : string) :
  match lstrip s with
  | EmptyString => True
  | String c _ => is_space c = false
  end.
Proof.
  induction s as [|c s IH]; [exact I|]. cbn [lstrip].
  destruct (is_space c) eqn:E; [exact IH|exact E].
Qed.

Lemma rstrip_head (c : ascii) (s : string) :
  is_space c = false -> exists kept, rstrip (String c s) = String c kept.
Proof.
  intros Hc. cbn [rstrip]. destruct (rstrip s) as [|c' kept].
  - rewrite Hc. now exists EmptyString.
  - now exists (String c' kept).
Qed.

(** Stripping what is stripped already changes nothing. *)
Lemma strip_idem (s : string) : strip (strip s) = strip s.
Proof.
  unfold strip. pose proof (lstrip_head s) as Hh.
  destruct (lstrip s) as [|c rest]; [reflexivity|].
  destruct (rstrip_head c rest Hh) as [kept Hk]. rewrite Hk.
  cbn [lstrip]. rewrite Hh, <- Hk. apply rstrip_idem.
Qed.

(** X5: Every line that [split_stdout] returns has at least one character, no
    line feed in it, and no white space at either end. *)
Theorem split_stdout_lines (strip_invalid_utf8 : string -> string)
    (stdout_str line : string) :
  In line (split_stdout strip_invalid_utf8 stdout_str) ->
  line <> EmptyString /\
  all_chars (fun c => negb (Ascii.eqb c "010")) line = true /\
  strip line = line.
Proof.
  unfold split_stdout. intros H. apply in_map_iff in H.
  destruct H as (raw & <- & Hraw). apply filter_In in Hraw.
  destruct Hraw as [Hin Hlen]. split; [|split].
  - intros E. rewrite E in Hlen. discriminate.
  - unfold strip. apply rstrip_all_chars, lstrip_all_chars.
    exact (split_char_pieces _ _ _ Hin).
  - apply strip_idem.
Qed.

(** ** [adb_devices] *)

Lemma span_spec (p : ascii -> bool) (s : string) :
  forall a b, span p s = (a, b) ->
  s = (a ++ b)%string /\ all_chars p a = true /\
  match b with
  | EmptyString => True
  | String c _ => p c = false
  end.
Proof.
  unfold all_chars. induction s as [|c s IH]; intros a b; cbn [span].
  - intros [= <- <-]. auto.
  - destruct (p c) eqn:E.
    + destruct (span p s) as [taken remaining]. intros [= <- <-].
      destruct (IH _ _ eq_refl) as (-> & Ha & Hb).
      cbn [list_ascii_of_string forallb]. rewrite E. auto.
    + intros [= <- <-]. cbn. auto.
Qed.

Lemma span_app (p : ascii -> bool) (a b : string) :
  all_chars p a = true ->
  match b with
  | EmptyString => True
  | String c _ => p c = false
  end ->
  span p (a ++ b) = (a, b).
Proof.
  unfold all_chars. intros Ha Hb. induction a as [|c a IH].
  - cbn [String.append]. destruct b as [|c b]; [reflexivity|].
    cbn [span]. now rewrite Hb.
  - cbn [list_ascii_of_string forallb] in Ha. apply andb_prop in Ha.
    destruct Ha as [Hc Ha]. cbn [String.append span].
    now rewrite Hc, (IH Ha).
Qed.

Lemma space_not_word (c : ascii) : is_space c = true -> is_word c = false.
Proof.
  destruct c as [[] [] [] [] [] [] [] []]; vm_compute;
    intros H; (reflexivity || discriminate H).
Qed.

Lemma prefix_app (a b : string) :
  String.prefix a b = true <-> exists rest, b = (a ++ rest)%string.
Proof.
  revert b. induction a as [|c a IH]; intros b.
  - rewrite prefix_nil_l. split; [now exists b|reflexivity].
  - destruct b as [|d b].
    + split; [discriminate|]. intros [rest H]. discriminate.
    + rewrite prefix_cons. split.
      * intros H. apply andb_prop in H. destruct H as [Hc Hp].
        apply Ascii.eqb_eq in Hc. subst d.
        apply IH in Hp. destruct Hp as [rest ->]. now exists rest.
      * intros [rest [= -> ->]]. rewrite Ascii.eqb_refl.
        apply IH. now exists rest.
Qed.

(** The line matches [(\w+)\s+device] from its first character, with [w] as
    the group, exactly when it is [w], white space and then [device], with
    [w] a run of word characters: a serial number with any other character
    in it, such as a hyphen, a dot or a colon, is never matched. *)
Lemma match_device_spec (line w : string) :
  match_device line = Some w <->
  exists spaces rest,
    line = (w ++ spaces ++ "device" ++ rest)%string /\
    w <> EmptyString /\ all_chars is_word w = true /\
    spaces <> EmptyString /\ all_chars is_space spaces = true.
Proof.
  unfold match_device. split.
  - destruct (span is_word line) as [word after_word] eqn:E1.
    destruct word as [|c word]; [discriminate|].
    destruct (span is_space after_word) as [spaces after_spaces] eqn:E2.
    destruct spaces as [|s spaces]; [discriminate|].
    destruct (String.prefix "device" after_spaces) eqn:E3; [|discriminate].
    intros [= <-].
    apply span_spec in E1. destruct E1 as (-> & Hw & _).
    apply span_spec in E2. destruct E2 as (-> & Hs & _).
    apply prefix_app in E3. destruct E3 as [rest ->].
    exists (String s spaces), rest. repeat split; auto; discriminate.
  - intros (spaces & rest & -> & Hw0 & Hw & Hs0 & Hs).
    destruct spaces as [|s spaces]; [contradiction|].
    assert (Hs1 : is_space s = true).
    { unfold all_chars in Hs. cbn in Hs. now apply andb_prop in Hs. }
    rewrite (span_app is_word w); [|exact Hw|now apply space_not_word].
    destruct w as [|c w]; [contradiction|].
    rewrite (span_app is_space (String s spaces)); [|exact Hs|reflexivity].
    assert (Hp : String.prefix "device" ("device" ++ rest) = true)
      by (apply prefix_app; now exists rest).
    now rewrite Hp.
Qed.

Lemma adb_devices_lines_in (lines : list string) (serialno : string) :
  In serialno (adb_devices_lines lines) <->
  exists line, In line lines /\ match_device line = Some serialno.
Proof.
  induction lines as [|line lines IH]; cbn [adb_devices_lines].
  - split; [intros []|intros (l & [] & _)].
  - destruct (match_device line) as [found|] eqn:E.
    + cbn [In]. rewrite IH. split.
      * intros [<-|(l & Hl & Hm)]; [exists line|exists l]; auto.
      * intros (l & [<-|Hl] & Hm); [left; congruence|right; now exists l].
    + rewrite IH. split.
      * intros (l & Hl & Hm). exists l. cbn [In]. auto.
      * intros (l & [<-|Hl] & Hm); [congruence|now exists l].
Qed.

(** X6: [adb_devices] lists a serial number exactly when a line of the output
    of [adb devices] (stripped, blank lines left out) is that serial
    number, white space and then [device], and the serial number is made
    of letters, digits and underscores only. *)
Theorem adb_devices_listed (strip_invalid_utf8 : string -> string)
    (devices_output serialno : string) :
  In serialno (adb_devices strip_invalid_utf8 devices_output) <->
  exists line spaces rest,
    In line (split_stdout strip_invalid_utf8 devices_output) /\
    line = (serialno ++ spaces ++ "device" ++ rest)%string /\
    serialno <> EmptyString /\ all_chars is_word serialno = true /\
    spaces <> EmptyString /\ all_chars is_space spaces = true.
Proof.
  unfold adb_devices. rewrite adb_devices_lines_in. split.
  - intros (line & Hin & Hm). apply match_device_spec in Hm.
    destruct Hm as (spaces & rest & H). exists line, spaces, rest. tauto.
  - intros (line & spaces & rest & Hin & H). exists line. split; [exact Hin|].
    apply match_device_spec. now exists spaces, rest.
Qed.

(** ** The devices of a platform *)

Lemma lookup_assign_same {A} (k : string) (v : A) (d : list (string * A)) :
  lookup k (assign k v d) = Some v.
Proof.
  induction d as [|[k' v'] d IH]; cbn [assign lookup].
  - now rewrite String.eqb_refl.
  - destruct (String.eqb k k') eqn:E; cbn [lookup]; now rewrite E.
Qed.

Lemma lookup_assign_other {A} (k k0 : string) (v : A)
    (d : list (string * A)) :
  k0 <> k -> lookup k0 (assign k v d) = lookup k0 d.
Proof.
  intros Hne. induction d as [|[k' v'] d IH]; cbn [assign lookup].
  - apply String.eqb_neq in Hne. now rewrite Hne.
  - destruct (String.eqb k k') eqn:E; cbn [lookup].
    + apply String.eqb_eq in E. subst k'.
      apply String.eqb_neq in Hne. now rewrite Hne.
    + now rewrite IH.
Qed.

Lemma assign_keys {A} (k : string) (v : A) (d : list (string * A)) :
  map fst (assign k v d) =
  match lookup k d with
  | Some _ => map fst d
  | None => map fst d ++ [k]
  end.
Proof.
  induction d as [|[k' v'] d IH]; cbn [assign lookup map fst app].
  - reflexivity.
  - destruct (String.eqb k k') eqn:E; cbn [map fst].
    + reflexivity.
    + rewrite IH. now destruct (lookup k d).
Qed.

Lemma lookup_in_keys {A} (k : string) (d : list (string * A)) :
  In k (map fst d) <-> lookup k d <> None.
Proof.
  induction d as [|[k' v'] d IH]; cbn [lookup map fst In].
  - tauto.
  - destruct (String.eqb_spec k k') as [->|Hne].
    + split; [discriminate|auto].
    + rewrite <- IH. split; [intros [H|H]; congruence|auto].
Qed.

Lemma assign_nodup {A} (k : string) (v : A) (d : list (string * A)) :
  NoDup (map fst d) -> NoDup (map fst (assign k v d)).
Proof.
  intros Hd. rewrite assign_keys. destruct (lookup k d) eqn:E; [exact Hd|].
  apply NoDup_app; [exact Hd|repeat constructor; intros []|].
  intros a Ha [<-|[]]. apply lookup_in_keys in Ha. congruence.
Qed.

Lemma has_platform_spec (getprop : string -> list (string * string))
    (target_soc serialno : string) :
  has_platform getprop target_soc serialno = true <->
  lookup "ro.board.platform" (getprop serialno) = Some target_soc.
Proof.
  unfold has_platform.
  destruct (lookup "ro.board.platform" (getprop serialno)) as [p|].
  - rewrite String.eqb_eq. split; congruence.
  - split; discriminate.
Qed.

Lemma soc_serial_number_loop_raises
    (getprop : string -> list (string * string)) (devs : list string) :
  forall m, forallb (reports_platform getprop) devs = false ->
  soc_serial_number_loop getprop devs m = Raises KeyError.
Proof.
  induction devs as [|d devs IH]; intros m; cbn [forallb]; [discriminate|].
  unfold reports_platform at 1. cbn [soc_serial_number_loop].
  destruct (lookup "ro.board.platform" (getprop d)); [|reflexivity].
  cbn [andb]. apply IH.
Qed.

Lemma soc_serial_number_loop_returns
    (getprop : string -> list (string * string)) (devs : list string) :
  forall m, forallb (reports_platform getprop) devs = true ->
  exists m', soc_serial_number_loop getprop devs m = Returns m' /\
  forall t, lookup t m' =
    match hd_error (rev (filter (has_platform getprop t) devs)) with
    | Some d => Some d
    | None => lookup t m
    end.
Proof.
  induction devs as [|d devs IH]; intros m; cbn [forallb].
  - intros _. exists m. split; reflexivity.
  - unfold reports_platform at 1. cbn [soc_serial_number_loop].
    destruct (lookup "ro.board.platform" (getprop d)) as [p|] eqn:E;
      [|discriminate].
    cbn [andb]. intros Hall.
    destruct (IH (assign p d m) Hall) as (m' & Hrun & Hm').
    exists m'. split; [exact Hrun|]. intros t. rewrite Hm'.
    cbn [filter]. unfold has_platform at 2. rewrite E.
    destruct (String.eqb_spec p t) as [->|Hne].
    + cbn [rev].
      destruct (rev (filter (has_platform getprop t) devs)) as [|x xs];
        cbn [hd_error app]; [apply lookup_assign_same|reflexivity].
    + destruct (hd_error (rev (filter (has_platform getprop t) devs)));
        [reflexivity|].
      apply lookup_assign_other. congruence.
Qed.

(** X7: [get_target_soc_serial_number] raises [KeyError] when a device that
    [adb devices] lists has no property [ro.board.platform], whatever the
    platform asked for; otherwise it returns the last listed device of the
    platform, and [None] when there is none. *)
Theorem target_soc_last_device (strip_invalid_utf8 : string -> string)
    (devices_output : string)
    (adb_getprop_by_serialno : string -> list (string * string))
    (target_soc : string) :
  let devices := adb_devices strip_invalid_utf8 devices_output in
  get_target_soc_serial_number strip_invalid_utf8 devices_output
    adb_getprop_by_serialno target_soc =
  if forallb (reports_platform adb_getprop_by_serialno) devices
  then Returns (hd_error (rev (filter
                  (has_platform adb_getprop_by_serialno target_soc) devices)))
  else Raises KeyError.
Proof.
  intros devices. unfold get_target_soc_serial_number.
  unfold get_soc_serial_number_map. fold devices.
  destruct (forallb (reports_platform adb_getprop_by_serialno) devices)
    eqn:Hall.
  - destruct (soc_serial_number_loop_returns adb_getprop_by_serialno
                devices [] Hall) as (m' & -> & Hm').
    rewrite Hm'. cbn [lookup].
    now destruct (hd_error (rev (filter
                  (has_platform adb_getprop_by_serialno target_soc) devices))).
  - now rewrite soc_serial_number_loop_raises.
Qed.

Lemma lookup_setdefault_append (p d t : string)
    (m : list (string * list string)) :
  lookup t (setdefault_append p d m) =
  if String.eqb t p
  then Some (match lookup p m with Some l => l ++ [d] | None => [d] end)
  else lookup t m.
Proof.
  unfold setdefault_append. destruct (String.eqb_spec t p) as [->|Hne].
  - destruct (lookup p m); apply lookup_assign_same.
  - destruct (lookup p m); now apply lookup_assign_other.
Qed.

Lemma setdefault_append_nodup (p d : string)
    (m : list (string * list string)) :
  NoDup (map fst m) -> NoDup (map fst (setdefault_append p d m)).
Proof.
  unfold setdefault_append. destruct (lookup p m); apply assign_nodup.
Qed.

Lemma assign_length {A} (k : string) (v : A) (d : list (string * A)) :
  (List.length (assign k v d) <= S (List.length d))%nat.
Proof.
  induction d as [|[k' v'] d IH]; cbn [assign List.length]; [lia|].
  destruct (String.eqb k k'); cbn [List.length]; lia.
Qed.

Lemma setdefault_append_length (p d : string)
    (m : list (string * list string)) :
  (List.length (setdefault_append p d m) <= S (List.length m))%nat.
Proof.
  unfold setdefault_append. destruct (lookup p m); apply assign_length.
Qed.

Lemma soc_serialnos_loop_raises
    (getprop : string -> list (string * string)) (devs : list string) :
  forall m, forallb (reports_platform getprop) devs = false ->
  soc_serialnos_loop getprop devs m = Raises KeyError.
Proof.
  induction devs as [|d devs IH]; intros m; cbn [forallb]; [discriminate|].
  unfold reports_platform at 1. cbn [soc_serialnos_loop].
  destruct (lookup "ro.board.platform" (getprop d)); [|reflexivity].
  cbn [andb]. apply IH.
Qed.

Lemma soc_serialnos_loop_returns
    (getprop : string -> list (string * string)) (devs : list string) :
  forall m, forallb (reports_platform getprop) devs = true ->
  exists m', soc_serialnos_loop getprop devs m = Returns m' /\
  (NoDup (map fst m) -> NoDup (map fst m')) /\
  (List.length m' <= List.length m + List.length devs)%nat /\
  forall t, lookup t m' =
    match lookup t m with
    | Some l => Some (l ++ filter (has_platform getprop t) devs)
    | None =>
        match filter (has_platform getprop t) devs with
        | [] => None
        | l => Some l
        end
    end.
Proof.
  induction devs as [|d devs IH]; intros m; cbn [forallb].
  - intros _. exists m. split; [reflexivity|]. split; [auto|].
    split; [cbn [List.length]; lia|].
    intros t. cbn [filter]. destruct (lookup t m); [|reflexivity].
    now rewrite app_nil_r.
  - unfold reports_platform at 1. cbn [soc_serialnos_loop].
    destruct (lookup "ro.board.platform" (getprop d)) as [p|] eqn:E;
      [|discriminate].
    cbn [andb]. intros Hall.
    destruct (IH (setdefault_append p d m) Hall)
      as (m' & Hrun & Hnd & Hlen & Hm').
    exists m'. split; [exact Hrun|]. split.
    { intros H. now apply Hnd, setdefault_append_nodup. }
    split.
    { pose proof (setdefault_append_length p d m). cbn [List.length]. lia. }
    intros t. rewrite Hm', lookup_setdefault_append.
    assert (Hd : has_platform getprop t d = String.eqb t p).
    { unfold has_platform. rewrite E. apply String.eqb_sym. }
    cbn [filter]. rewrite Hd. clear Hd.
    destruct (String.eqb_spec t p) as [Heq|Hne].
    + rewrite Heq. destruct (lookup p m) as [l|]; [|reflexivity].
      now rewrite <- app_assoc.
    + reflexivity.
Qed.

Lemma extend_serialnos_spec (m : list (string * list string))
    (targets : list string) :
  forall acc,
  extend_serialnos m targets acc =
  if forallb (fun t => match lookup t m with Some _ => true | None => false end)
       targets
  then Returns (acc ++ flat_map
                  (fun t => match lookup t m with Some l => l | None => [] end)
                  targets)
  else Raises KeyError.
Proof.
  induction targets as [|t targets IH]; intros acc;
    cbn [extend_serialnos forallb flat_map].
  - now rewrite app_nil_r.
  - destruct (lookup t m) as [l|]; [|reflexivity].
    cbn [andb]. rewrite IH.
    destruct (forallb _ targets); [|reflexivity]. now rewrite app_assoc.
Qed.

Lemma forallb_pointwise {A} (p q : A -> bool) (l : list A) :
  (forall a, p a = q a) -> forallb p l = forallb q l.
Proof.
  intros H. induction l as [|a l IH]; cbn [forallb]; [reflexivity|].
  now rewrite H, IH.
Qed.

Lemma flat_map_pointwise_in {A B} (f g : A -> list B) (l : list A) :
  (forall a, In a l -> f a = g a) -> flat_map f l = flat_map g l.
Proof.
  induction l as [|a l IH]; intros H; cbn [flat_map]; [reflexivity|].
  rewrite (H a (or_introl eq_refl)), IH; [reflexivity|].
  intros b Hb. apply H. now right.
Qed.

Lemma filter_nil_existsb {A} (p : A -> bool) (l : list A) :
  existsb p l = match filter p l with [] => false | _ => true end.
Proof.
  induction l as [|a l IH]; cbn [existsb filter]; [reflexivity|].
  destruct (p a); [reflexivity|exact IH].
Qed.

Lemma target_socs_shape (strip_invalid_utf8 : string -> string)
    (devices_output : string)
    (adb_getprop_by_serialno : string -> list (string * string))
    (iter_order : list string -> list string) (target_socs : list string) :
  get_target_socs_serialnos strip_invalid_utf8 devices_output
    adb_getprop_by_serialno iter_order (Some target_socs) =
  if forallb (reports_platform adb_getprop_by_serialno)
       (adb_devices strip_invalid_utf8 devices_output) &&
     forallb (fun target_soc =>
                existsb (has_platform adb_getprop_by_serialno target_soc)
                  (adb_devices strip_invalid_utf8 devices_output))
       target_socs
  then Returns
         (flat_map
            (fun target_soc =>
               filter (has_platform adb_getprop_by_serialno target_soc)
                 (adb_devices strip_invalid_utf8 devices_output))
            target_socs)
  else Raises KeyError.
Proof.
  set (devices := adb_devices strip_invalid_utf8 devices_output).
  unfold get_target_socs_serialnos.
  unfold get_soc_serialnos_map. fold devices.
  destruct (forallb (reports_platform adb_getprop_by_serialno) devices)
    eqn:Hall; cbn [andb].
  - destruct (soc_serialnos_loop_returns adb_getprop_by_serialno
                devices [] Hall) as (m' & -> & _ & _ & Hm').
    rewrite extend_serialnos_spec. cbn [app].
    rewrite (forallb_pointwise _
      (fun t => existsb (has_platform adb_getprop_by_serialno t) devices)).
    2:{ intros t. rewrite Hm', filter_nil_existsb. cbn [lookup].
        now destruct (filter _ devices). }
    rewrite (flat_map_ext _
      (fun t => filter (has_platform adb_getprop_by_serialno t) devices));
      [reflexivity|].
    intros t. rewrite Hm'. cbn [lookup].
    now destruct (filter _ devices).
  - now rewrite soc_serialnos_loop_raises.
Qed.

(** X8: [get_target_socs_serialnos(target_socs)] with a list of platforms
    returns, for each platform in the order given, the devices of that
    platform in the order [adb devices] lists them. It raises [KeyError]
    when a listed device has no property [ro.board.platform], and when one
    of the platforms asked for has no device. *)
Theorem target_socs_devices (strip_invalid_utf8 : string -> string)
    (devices_output : string)
    (adb_getprop_by_serialno : string -> list (string * string))
    (iter_order : list string -> list string) (target_socs : list string) :
  let devices := adb_devices strip_invalid_utf8 devices_output in
  let of_platform target_soc :=
    filter (has_platform adb_getprop_by_serialno target_soc) devices in
  get_target_socs_serialnos strip_invalid_utf8 devices_output
    adb_getprop_by_serialno iter_order (Some target_socs) =
  if forallb (reports_platform adb_getprop_by_serialno) devices &&
     forallb (fun target_soc =>
                existsb (has_platform adb_getprop_by_serialno target_soc)
                  devices) target_socs
  then Returns (flat_map of_platform target_socs)
  else Raises KeyError.
Proof. intros devices of_platform. apply target_socs_shape. Qed.

Lemma flat_map_nil {A B} (l : list A) :
  flat_map (fun _ : A => @nil B) l = [].
Proof. induction l as [|a l IH]; cbn [flat_map app]; auto. Qed.

Lemma flat_map_insert (d : string) (f : string -> list string)
    (t0 : string) (keys : list string) :
  NoDup keys -> In t0 keys ->
  Permutation
    (flat_map (fun t => if String.eqb t0 t then d :: f t else f t) keys)
    (d :: flat_map f keys).
Proof.
  induction keys as [|k keys IH]; intros Hnd Hin; [destruct Hin|].
  inversion Hnd as [|? ? Hk Hnd']; subst. cbn [flat_map].
  destruct (String.eqb_spec t0 k) as [->|Hne].
  - cbn [app]. rewrite (flat_map_pointwise_in _ f); [reflexivity|].
    intros t Ht. destruct (String.eqb_spec k t) as [->|]; [|reflexivity].
    contradiction.
  - destruct Hin as [->|Hin]; [contradiction|].
    etransitivity; [apply Permutation_app_head, IH; assumption|].
    symmetry. apply Permutation_middle.
Qed.

Lemma grouped_by_platform (getprop : string -> list (string * string))
    (keys devs : list string) :
  NoDup keys ->
  (forall d, In d devs ->
     exists t, In t keys /\ has_platform getprop t d = true) ->
  Permutation (flat_map (fun t => filter (has_platform getprop t) devs) keys)
    devs.
Proof.
  intros Hnd. induction devs as [|d devs IH]; intros Hcov.
  - cbn [filter]. now rewrite flat_map_nil.
  - destruct (Hcov d (or_introl eq_refl)) as (t0 & Hin & Ht0).
    rewrite (flat_map_ext _
      (fun t => if String.eqb t0 t
                then d :: filter (has_platform getprop t) devs
                else filter (has_platform getprop t) devs)).
    + etransitivity; [apply flat_map_insert; assumption|].
      apply perm_skip, IH. intros d' Hd'. apply Hcov. now right.
    + intros t. cbn [filter]. destruct (String.eqb_spec t0 t) as [->|Hne].
      * now rewrite Ht0.
      * destruct (has_platform getprop t d) eqn:Ht; [|reflexivity].
        apply has_platform_spec in Ht0, Ht. congruence.
Qed.

(** X9: Called without a list of platforms, [get_target_socs_serialnos]
    returns every device that [adb devices] lists, each as often as it is
    listed, grouped by platform: when each listed device has the property
    [ro.board.platform], and given that a dict of no more keys than there
    are devices lists each of its keys once. *)
Theorem all_socs_every_device (strip_invalid_utf8 : string -> string)
    (devices_output : string)
    (adb_getprop_by_serialno : string -> list (string * string))
    (iter_order : list string -> list string) :
  (forall keys,
     NoDup keys ->
     (List.length keys
      <= List.length (adb_devices strip_invalid_utf8 devices_output))%nat ->
     Permutation (iter_order keys) keys) ->
  forallb (reports_platform adb_getprop_by_serialno)
    (adb_devices strip_invalid_utf8 devices_output) = true ->
  exists serialnos,
    get_target_socs_serialnos strip_invalid_utf8 devices_output
      adb_getprop_by_serialno iter_order None = Returns serialnos /\
    Permutation serialnos (adb_devices strip_invalid_utf8 devices_output).
Proof.
  set (devices := adb_devices strip_invalid_utf8 devices_output).
  intros Horder Hall. unfold get_target_socs_serialnos.
  unfold get_soc_serialnos_map. fold devices.
  destruct (soc_serialnos_loop_returns adb_getprop_by_serialno
              devices [] Hall) as (m' & -> & Hnd & Hlen & Hm').
  specialize (Hnd (NoDup_nil _)).
  assert (Hperm : Permutation (iter_order (map fst m')) (map fst m')).
  { apply Horder; [exact Hnd|]. rewrite length_map.
    cbn [List.length] in Hlen. lia. }
  rewrite extend_serialnos_spec. cbn [app].
  assert (Hkeys : forall t, In t (map fst m') <->
            filter (has_platform adb_getprop_by_serialno t) devices <> []).
  { intros t. rewrite lookup_in_keys, Hm'. cbn [lookup].
    destruct (filter _ devices); split; congruence. }
  rewrite (proj2 (forallb_forall _ _)).
  2:{ intros t Ht. apply (Permutation_in _ Hperm), lookup_in_keys in Ht.
      now destruct (lookup t m'). }
  eexists. split; [reflexivity|].
  rewrite (flat_map_ext _
    (fun t => filter (has_platform adb_getprop_by_serialno t) devices)).
  2:{ intros t. rewrite Hm'. cbn [lookup]. now destruct (filter _ devices). }
  etransitivity; [apply Permutation_flat_map, Hperm|].
  apply grouped_by_platform; [exact Hnd|].
  intros d Hd.
  assert (Hd' := proj1 (forallb_forall _ _) Hall d Hd).
  unfold reports_platform in Hd'.
  destruct (lookup "ro.board.platform" (adb_getprop_by_serialno d))
    as [p|] eqn:E; [|discriminate].
  assert (Hp : has_platform adb_getprop_by_serialno p d = true)
    by now apply has_platform_spec.
  exists p. split; [|exact Hp]. apply Hkeys.
  intros Hnil. assert (Hf : In d (filter
                 (has_platform adb_getprop_by_serialno p) devices))
    by (apply filter_In; auto).
  rewrite Hnil in Hf. destruct Hf.
Qed.

Lemma existsb_has_platform (getprop : string -> list (string * string))
    (p : string) (devs : list string) :
  existsb (has_platform getprop p) devs = true <->
  exists d, In d devs /\
            lookup "ro.board.platform" (getprop d) = Some p.
Proof.
  rewrite existsb_exists. split; intros (d & Hd & H); exists d;
    (split; [exact Hd|]); now apply has_platform_spec.
Qed.

Lemma all_socs_loop_raises (getprop : string -> list (string * string))
    (devs : list string) :
  forall socs, forallb (reports_platform getprop) devs = false ->
  all_socs_loop getprop devs socs = Raises KeyError.
Proof.
  induction devs as [|d devs IH]; intros socs; cbn [forallb]; [discriminate|].
  unfold reports_platform at 1. cbn [all_socs_loop].
  destruct (lookup "ro.board.platform" (getprop d)); [|reflexivity].
  cbn [andb]. apply IH.
Qed.

Lemma all_socs_loop_returns (getprop : string -> list (string * string))
    (devs : list string) :
  forall socs, forallb (reports_platform getprop) devs = true ->
  exists found,
    all_socs_loop getprop devs socs = Returns (socs ++ found) /\
    forall p, In p found <-> existsb (has_platform getprop p) devs = true.
Proof.
  induction devs as [|d devs IH]; intros socs; cbn [forallb].
  - intros _. exists []. rewrite app_nil_r. split; [reflexivity|].
    intros p. cbn [existsb In]. split; [tauto|discriminate].
  - unfold reports_platform at 1. cbn [all_socs_loop].
    destruct (lookup "ro.board.platform" (getprop d)) as [q|] eqn:E;
      [|discriminate].
    cbn [andb]. intros Hall.
    destruct (IH (socs ++ [q]) Hall) as (found & Hrun & Hfound).
    exists (q :: found). rewrite Hrun, <- app_assoc. split; [reflexivity|].
    intros p. cbn [In existsb]. rewrite Hfound, orb_true_iff.
    rewrite has_platform_spec, E. split; intros [H|H]; auto; left; congruence.
Qed.

Lemma all_socs_of_platforms_aux (strip_invalid_utf8 : string -> string)
    (devices_output : string)
    (adb_getprop_by_serialno : string -> list (string * string))
    (socs : list string) :
  adb_get_all_socs strip_invalid_utf8 devices_output
    adb_getprop_by_serialno = Returns socs ->
  forallb (reports_platform adb_getprop_by_serialno)
    (adb_devices strip_invalid_utf8 devices_output) = true /\
  NoDup socs /\
  forall p, In p socs <->
    existsb (has_platform adb_getprop_by_serialno p)
      (adb_devices strip_invalid_utf8 devices_output) = true.
Proof.
  set (devices := adb_devices strip_invalid_utf8 devices_output).
  unfold adb_get_all_socs. fold devices.
  destruct (forallb (reports_platform adb_getprop_by_serialno) devices)
    eqn:Hall.
  - destruct (all_socs_loop_returns adb_getprop_by_serialno devices [] Hall)
      as (found & -> & Hfound).
    cbn [app]. intros [= <-]. split; [reflexivity|].
    split; [apply NoDup_nodup|].
    intros p. now rewrite nodup_In.
  - rewrite all_socs_loop_raises by exact Hall. discriminate.
Qed.

(** X10: [adb_get_all_socs] returns the platforms that have a device among
    those [adb devices] lists, each platform once; it raises [KeyError]
    as soon as one listed device has no property [ro.board.platform]. *)
Theorem all_socs_of_devices (strip_invalid_utf8 : string -> string)
    (devices_output : string)
    (adb_getprop_by_serialno : string -> list (string * string)) :
  let devices := adb_devices strip_invalid_utf8 devices_output in
  match adb_get_all_socs strip_invalid_utf8 devices_output
          adb_getprop_by_serialno with
  | Returns socs =>
      forallb (reports_platform adb_getprop_by_serialno) devices = true /\
      NoDup socs /\
      forall p, In p socs <->
        existsb (has_platform adb_getprop_by_serialno p) devices = true
  | Raises e =>
      forallb (reports_platform adb_getprop_by_serialno) devices = false /\
      e = KeyError
  end.
Proof.
  intros devices. unfold adb_get_all_socs. fold devices.
  destruct (forallb (reports_platform adb_getprop_by_serialno) devices)
    eqn:Hall.
  - destruct (all_socs_loop_returns adb_getprop_by_serialno devices [] Hall)
      as (found & -> & Hfound).
    cbn [app]. split; [reflexivity|]. split; [apply NoDup_nodup|].
    intros p. now rewrite nodup_In.
  - rewrite all_socs_loop_raises by exact Hall. now split.
Qed.

(** X11: The platforms that [adb_get_all_socs] returns are safe to hand to
    [get_target_socs_serialnos] while the devices attached stay the same:
    in whatever order they are given, that call raises nothing and
    returns every device that [adb devices] lists, each as often as it is
    listed. *)
Theorem all_socs_cover_devices (strip_invalid_utf8 : string -> string)
    (devices_output : string)
    (adb_getprop_by_serialno : string -> list (string * string))
    (iter_order : list string -> list string)
    (socs target_socs : list string) :
  adb_get_all_socs strip_invalid_utf8 devices_output
    adb_getprop_by_serialno = Returns socs ->
  Permutation target_socs socs ->
  exists serialnos,
    get_target_socs_serialnos strip_invalid_utf8 devices_output
      adb_getprop_by_serialno iter_order (Some target_socs)
      = Returns serialnos /\
    Permutation serialnos (adb_devices strip_invalid_utf8 devices_output).
Proof.
  intros Hsocs Hperm.
  pose proof (all_socs_of_platforms_aux strip_invalid_utf8 devices_output
                adb_getprop_by_serialno socs Hsocs) as (Hall & Hnd & Hin).
  set (devices := adb_devices strip_invalid_utf8 devices_output) in *.
  rewrite target_socs_shape. fold devices. rewrite Hall. cbn [andb].
  rewrite (proj2 (forallb_forall _ _)).
  2:{ intros p Hp. apply Hin. exact (Permutation_in _ Hperm Hp). }
  eexists. split; [reflexivity|].
  apply grouped_by_platform.
  - exact (Permutation_NoDup (Permutation_sym Hperm) Hnd).
  - intros d Hd.
    assert (Hd' := proj1 (forallb_forall _ _) Hall d Hd).
    unfold reports_platform in Hd'.
    destruct (lookup "ro.board.platform" (adb_getprop_by_serialno d))
      as [p|] eqn:E; [|discriminate].
    exists p. split; [|now apply has_platform_spec].
    apply (Permutation_in _ (Permutation_sym Hperm)), Hin.
    apply existsb_has_platform. now exists d.
Qed.

(** ** Device properties *)

Lemma split_concat (sep : ascii) (pieces : list string) :
  pieces <> [] ->
  (forall piece, In piece pieces ->
     all_chars (fun c => negb (Ascii.eqb c sep)) piece = true) ->
  split_char sep (String.concat (String sep EmptyString) pieces) = pieces.
Proof.
  induction pieces as [|x pieces IH]; intros Hne Hall; [contradiction|].
  destruct pieces as [|y pieces].
  - cbn [String.concat]. apply split_char_absent, Hall. now left.
  - change (String.concat (String sep EmptyString) (x :: y :: pieces))
      with (x ++ String sep (String.concat (String sep EmptyString)
                               (y :: pieces)))%string.
    rewrite split_char_app, IH; [|discriminate|].
    + rewrite split_char_absent; [reflexivity|]. apply Hall. now left.
    + intros piece Hp. apply Hall. now right.
Qed.

Lemma map_fixed {A} (f : A -> A) (l : list A) :
  (forall a, In a l -> f a = a) -> map f l = l.
Proof.
  induction l as [|a l IH]; intros H; cbn [map]; [reflexivity|].
  rewrite (H a (or_introl eq_refl)), IH; [reflexivity|].
  intros b Hb. apply H. now right.
Qed.

(** X12: [adb_supported_abis] gives back the ABIs that the device joined with
    commas in its property [ro.product.cpu.abilist]: for a list that is not
    empty, of names without a comma and without white space at their
    ends. *)
Theorem supported_abis_of_list
    (adb_getprop_by_serialno : string -> list (string * string))
    (serialno : string) (abis : list string) :
  abis <> [] ->
  (forall abi, In abi abis ->
     all_chars (fun c => negb (Ascii.eqb c ",")) abi = true) ->
  (forall abi, In abi abis -> strip abi = abi) ->
  lookup "ro.product.cpu.abilist" (adb_getprop_by_serialno serialno)
    = Some (String.concat "," abis) ->
  adb_supported_abis adb_getprop_by_serialno serialno = Returns abis.
Proof.
  intros Hne Hcomma Hstrip Hprop. unfold adb_supported_abis.
  rewrite Hprop, split_concat by assumption.
  now rewrite map_fixed.
Qed.

(** X13: What [adb_supported_abis] returns is never the empty list, and each
    name in it is without a comma and without white space at its ends; an
    empty name is possible. *)
Theorem supported_abis_shape
    (adb_getprop_by_serialno : string -> list (string * string))
    (serialno : string) (abis : list string) :
  adb_supported_abis adb_getprop_by_serialno serialno = Returns abis ->
  abis <> [] /\
  forall abi, In abi abis ->
    all_chars (fun c => negb (Ascii.eqb c ",")) abi = true /\
    strip abi = abi.
Proof.
  unfold adb_supported_abis.
  destruct (lookup "ro.product.cpu.abilist" (adb_getprop_by_serialno serialno))
    as [abilist_str|]; [|discriminate].
  intros [= <-]. split.
  - pose proof (split_char_nonempty "," abilist_str) as Hne.
    destruct (split_char "," abilist_str); [contradiction|discriminate].
  - intros abi Hin. apply in_map_iff in Hin.
    destruct Hin as (piece & <- & Hp). split; [|apply strip_idem].
    unfold strip. apply rstrip_all_chars, lstrip_all_chars.
    now apply (split_char_pieces "," abilist_str).
Qed.

Lemma remove_spaces_none (s : string) :
  all_chars (fun c => negb (Ascii.eqb c " ")) (remove_spaces s) = true.
Proof.
  unfold all_chars. induction s as [|c s IH]; [reflexivity|].
  cbn [remove_spaces]. destruct (Ascii.eqb c " ") eqn:E; [exact IH|].
  cbn [list_ascii_of_string forallb]. now rewrite E, IH.
Qed.

(** X14: The device name has no space in it, whatever the device reports as
    its model, and also when it reports none. *)
Theorem device_name_without_spaces
    (adb_getprop_by_serialno : string -> list (string * string))
    (serialno : string) :
  all_chars (fun c => negb (Ascii.eqb c " "))
    (adb_get_device_name_by_serialno adb_getprop_by_serialno serialno)
  = true.
Proof. unfold adb_get_device_name_by_serialno. apply remove_spaces_none. Qed.

(** ** [falcon_tags] *)

Lemma string_app_assoc (a b c : string) :
  ((a ++ b) ++ c = a ++ b ++ c)%string.
Proof.
  induction a as [|x a IH]; cbn [String.append]; [reflexivity|].
  now rewrite IH.
Qed.

Lemma string_app_nonempty (a b : string) :
  b <> EmptyString -> (a ++ b)%string <> EmptyString.
Proof. destruct a; [now cbn|discriminate]. Qed.

Lemma falcon_tags_loop_joined (items : list (string * string)) :
  forall tags, tags <> EmptyString ->
  falcon_tags_loop items tags =
  String.concat ","
    (tags :: map (fun kv => (fst kv ++ "=" ++ snd kv)%string) items).
Proof.
  induction items as [|[k v] items IH]; intros tags Hne;
    cbn [falcon_tags_loop map]; [reflexivity|].
  apply String.eqb_neq in Hne. rewrite Hne.
  rewrite IH by (apply string_app_nonempty; discriminate).
  cbn [fst snd].
  change (String.concat "," (tags :: (k ++ "=" ++ v)%string ::
            map (fun kv => (fst kv ++ "=" ++ snd kv)%string) items))
    with (tags ++ "," ++ String.concat "," ((k ++ "=" ++ v)%string ::
            map (fun kv => (fst kv ++ "=" ++ snd kv)%string) items))%string.
  destruct (map (fun kv => (fst kv ++ "=" ++ snd kv)%string) items)
    as [|x xs]; [reflexivity|].
  cbn [String.concat]. now rewrite !string_app_assoc.
Qed.

(** X15: [falcon_tags] joins the entries of the dict, each written [k=v], with
    commas, in the order in which the dict lists them: no comma comes
    first or last, and the empty dict gives the empty string. *)
Theorem falcon_tags_joined (iter_order : list string -> list string)
    (tags_dict : list (string * string)) :
  falcon_tags iter_order tags_dict =
  String.concat ","
    (map (fun kv => (fst kv ++ "=" ++ snd kv)%string)
       (dict_items iter_order tags_dict)).
Proof.
  unfold falcon_tags.
  destruct (dict_items iter_order tags_dict) as [|[k v] items];
    [reflexivity|].
  cbn [falcon_tags_loop map fst snd]. cbn [String.eqb].
  apply falcon_tags_loop_joined, string_app_nonempty. discriminate.
Qed.

(** ** Holding a device lock *)

(** X16: From the moment [device_lock(serialno).acquire()] has taken the lock
    until it is released, [is_device_locked] reports the device as locked
    and leaves the locks as they are, and no second lock object on the
    device acquires it: that call times out, or waits for ever under a
    negative timeout. Releasing puts the locks back as they were before
    the lock was taken, and the device is reported free again. *)
Theorem device_lock_held_until_release (serialno : string)
    (t : option Q) (held held' : locks) :
  acquire (device_lock serialno t) held = Acquired held' ->
  is_device_locked serialno held' = Some (true, held') /\
  (forall t' : option Q,
     acquire (device_lock serialno t') held' =
     if Qle_bool 0 (timeout (device_lock serialno t'))
     then Timeout else Blocked) /\
  (forall p, release (device_lock serialno t) held' p = held p) /\
  exists free,
    is_device_locked serialno (release (device_lock serialno t) held')
      = Some (false, free).
Proof.
  unfold acquire at 1. cbn [device_lock lock_file].
  destruct (held (device_lock_path serialno)) eqn:E.
  { destruct (Qle_bool 0 _); discriminate. }
  intros [= <-].
  assert (Hheld : set_lock held (device_lock_path serialno) true
                    (device_lock_path serialno) = true).
  { unfold set_lock. now rewrite String.eqb_refl. }
  assert (Hfree : release (device_lock serialno t)
                    (set_lock held (device_lock_path serialno) true)
                    (device_lock_path serialno) = false).
  { unfold release, set_lock. cbn [device_lock lock_file].
    now rewrite String.eqb_refl. }
  split; [|split; [|split]].
  - unfold is_device_locked, acquire. cbn [device_lock lock_file timeout].
    now rewrite Hheld.
  - intros t'. unfold acquire. cbn [device_lock lock_file].
    now rewrite Hheld.
  - intros p. unfold release, set_lock. cbn [device_lock lock_file].
    destruct (String.eqb_spec p (device_lock_path serialno)) as [->|];
      [now rewrite E|reflexivity].
  - unfold is_device_locked, acquire. cbn [device_lock lock_file timeout].
    rewrite Hfree. eexists. reflexivity.
Qed.

(** ** More on the merge *)

(** X17: The bytes that follow the declared records of a file are never read:
    the file gives the same result with them as without. *)
Theorem trailing_bytes_ignored (records : list (string * bytes))
    (extra : bytes) (kvs : dict) :
  Forall well_sized records -> len records <= sys_maxint ->
  read_binary (container_bytes records ++ extra) kvs =
  read_binary (container_bytes records) kvs.
Proof.
  intros Hs Hn. rewrite (read_binary_container records extra kvs Hs Hn).
  rewrite <- (app_nil_r (container_bytes records)).
  now rewrite (read_binary_container records [] kvs Hs Hn).
Qed.

(** A file of less than eight bytes has no record count to unpack. *)
Lemma read_binary_short (file : bytes) (kvs : dict) :
  len file < 8 -> read_binary file kvs = Err StructError.
Proof.
  intros Hlen. unfold read_binary.
  change 8 with (0 + 8) at 1.
  rewrite (py_slice_short file [] file 0 8); [|reflexivity|reflexivity|lia].
  unfold unpack_Q. destruct (Z.eqb_spec (len file) 8); [lia|reflexivity].
Qed.

(** X18: A source file that is there but shorter than the eight bytes of the
    record count, the empty file too, is not passed over as a missing one
    is: it ends the merge with [struct.error], and what the sources after
    it hold is never read. *)
Theorem short_source_raises (fs : filesystem) (name dir : string)
    (after : list string) (file : bytes) (kvs : dict) :
  fs (os_path_join dir name) = Some (File file) -> len file < 8 ->
  merge_kvs fs (dir :: after) name kvs = Err StructError.
Proof.
  intros Hfile Hlen. rewrite merge_kvs_step, Hfile.
  now rewrite read_binary_short.
Qed.

(** *** What a merge never does to the accumulator *)

Lemma read_record_related (R : dict -> dict -> Prop) :
  (forall k v kvs kvs', store k v kvs = Ok kvs' -> R kvs kvs') ->
  forall buf idx idx' kvs kvs',
  read_record buf (idx, kvs) = Ok (idx', kvs') -> R kvs kvs'.
Proof.
  intros Hstore buf idx idx' kvs kvs'. unfold read_record.
  destruct (unpack_i _) as [key_size|]; cbn [bind]; [|discriminate].
  destruct (unpack_s _ _) as [key|]; cbn [bind]; [|discriminate].
  destruct (unpack_i _) as [value_size|]; cbn [bind]; [|discriminate].
  destruct (store _ _ _) as [kvs1|] eqn:E; cbn [bind]; [|discriminate].
  intros [= _ <-]. exact (Hstore _ _ _ _ E).
Qed.

Lemma read_records_related (R : dict -> dict -> Prop) :
  (forall d, R d d) ->
  (forall a b c, R a b -> R b c -> R a c) ->
  (forall k v kvs kvs', store k v kvs = Ok kvs' -> R kvs kvs') ->
  forall n buf st st',
  read_records n buf st = Ok st' -> R (snd st) (snd st').
Proof.
  intros Hrefl Htrans Hstore n buf.
  induction n as [|n IH]; intros st st'; cbn [read_records].
  - intros [= ->]. apply Hrefl.
  - destruct (read_record buf st) as [[idx1 kvs1]|] eqn:E; cbn [bind];
      [|discriminate].
    intros H. destruct st as [idx kvs]. cbn [snd].
    apply (Htrans _ kvs1).
    + exact (read_record_related R Hstore _ _ _ _ _ E).
    + exact (IH _ _ H).
Qed.

Lemma merge_kvs_related (R : dict -> dict -> Prop) :
  (forall d, R d d) ->
  (forall a b c, R a b -> R b c -> R a c) ->
  (forall k v kvs kvs', store k v kvs = Ok kvs' -> R kvs kvs') ->
  forall fs name dirs kvs kvs',
  merge_kvs fs dirs name kvs = Ok kvs' -> R kvs kvs'.
Proof.
  intros Hrefl Htrans Hstore fs name dirs.
  induction dirs as [|d dirs IH]; intros kvs kvs';
    [cbn [merge_kvs]|rewrite merge_kvs_step].
  - intros [= ->]. apply Hrefl.
  - destruct (fs _) as [[buf|]|]; [|discriminate|apply IH].
    destruct (read_binary buf kvs) as [kvs1|] eqn:E; cbn [bind];
      [|discriminate].
    intros H. apply (Htrans _ kvs1); [|exact (IH _ _ H)].
    revert E. unfold read_binary.
    destruct (unpack_Q _) as [size|]; cbn [bind]; [|discriminate].
    destruct (size >? sys_maxint); [discriminate|].
    destruct (read_records _ _ _) as [st|] eqn:E; cbn [bind]; [|discriminate].
    intros [= <-].
    exact (read_records_related R Hrefl Htrans Hstore _ _ _ _ E).
Qed.

Lemma store_keys (k : string) (v : bytes) (kvs kvs' : dict) :
  store k v kvs = Ok kvs' ->
  keys kvs' = keys kvs ++
    match dict_get k kvs with
    | Some _ => []
    | None => [k]
    end.
Proof.
  unfold store. destruct (dict_get k kvs) as [old|] eqn:Eg.
  - rewrite app_nil_r. destruct (String.eqb k platform_info_key).
    + destruct (np_eq_all old v) as [[|]|]; cbn; try discriminate.
      now intros [= <-].
    + intros [= <-]. apply dict_set_present. congruence.
  - intros [= <-]. rewrite dict_set_fresh by exact Eg.
    unfold keys. now rewrite map_app.
Qed.

Lemma store_platform_info (k : string) (v p : bytes) (kvs kvs' : dict) :
  store k v kvs = Ok kvs' ->
  dict_get platform_info_key kvs = Some p ->
  dict_get platform_info_key kvs' = Some p.
Proof.
  intros Hst Hp. destruct (String.eqb_spec k platform_info_key) as [->|Hne].
  - revert Hst. unfold store. rewrite Hp, String.eqb_refl.
    destruct (np_eq_all p v) as [[|]|]; cbn; try discriminate.
    now intros [= <-].
  - rewrite (store_get_other _ _ _ _ _ Hst); [exact Hp|congruence].
Qed.

Lemma dict_get_some_in (k : string) (d : dict) :
  dict_get k d <> None <-> In k (keys d).
Proof.
  split.
  - intros H. destruct (in_dec string_dec k (keys d)) as [Hin|Hout];
      [exact Hin|]. apply dict_get_none in Hout. contradiction.
  - intros Hin Hn. apply dict_get_none in Hn. contradiction.
Qed.

(** X19: Whatever bytes the source files hold, a merge that returns has
    taken no key out of the accumulator: a key that is in it before the
    loop is in it after. *)
Theorem merge_removes_no_key (fs : filesystem) (name : string)
    (dirs : list string) (kvs kvs' : dict) (k : string) :
  merge_kvs fs dirs name kvs = Ok kvs' ->
  dict_get k kvs <> None -> dict_get k kvs' <> None.
Proof.
  intros Hm. revert k.
  apply (merge_kvs_related
           (fun a b => forall k, dict_get k a <> None -> dict_get k b <> None))
    with (fs := fs) (name := name) (dirs := dirs); [..|exact Hm].
  - auto.
  - auto.
  - intros k0 v a b Hst k. rewrite !dict_get_some_in.
    rewrite (store_keys _ _ _ _ Hst). intros Hin. apply in_or_app. now left.
Qed.

(** X20: Whatever bytes the source files hold, the platform info that the
    accumulator has is the one it keeps: no source read later replaces
    it. *)
Theorem platform_info_never_replaced (fs : filesystem) (name : string)
    (dirs : list string) (kvs kvs' : dict) (info : bytes) :
  merge_kvs fs dirs name kvs = Ok kvs' ->
  dict_get platform_info_key kvs = Some info ->
  dict_get platform_info_key kvs' = Some info.
Proof.
  intros Hm. revert info.
  apply (merge_kvs_related
           (fun a b => forall p, dict_get platform_info_key a = Some p ->
                                 dict_get platform_info_key b = Some p))
    with (fs := fs) (name := name) (dirs := dirs); [..|exact Hm].
  - auto.
  - auto.
  - intros k v a b Hst p. exact (store_platform_info _ _ _ _ _ Hst).
Qed.

(** *** Sources that are all missing *)

Lemma merge_kvs_none (fs : filesystem) (name : string) (dirs : list string)
    (kvs : dict) :
  (forall d, In d dirs -> fs (os_path_join d name) = None) ->
  merge_kvs fs dirs name kvs = Ok kvs.
Proof.
  induction dirs as [|d dirs IH]; intros H; [reflexivity|].
  rewrite merge_kvs_step, (H d (or_introl eq_refl)). apply IH.
  intros d' Hd'. apply H. now right.
Qed.

(** X21: When lines 402 to 404 have seen to the output directory and
    none of the directories has the file then, the empty list of
    directories included, the call comes to writing a container with no
    record, the eight zero bytes of its count, at the output path: it
    raises only if that write does.  The order of the dict plays no
    part. *)
Theorem no_source_empty_container
    (iter_order : list string -> list string)
    (mkdir_made : string -> filesystem -> option (string -> bool))
    (fs fs1 : filesystem)
    (binaries_dirs : list string) (name output_file_path : string) :
  make_output_dir mkdir_made fs output_file_path = Ok fs1 ->
  (forall d, In d binaries_dirs ->
     fs1 (os_path_join (os_path_join d "opencl_bin") name) = None) ->
  merge_opencl_binaries iter_order mkdir_made fs binaries_dirs name
    output_file_path =
  tofile fs1 output_file_path (repeat x00 8).
Proof.
  intros Hdir Hnone. unfold merge_opencl_binaries. rewrite Hdir.
  cbn [bind]. rewrite merge_kvs_none.
  - cbn [bind]. unfold serialize, iteritems. cbn [dict_get].
    now rewrite flat_map_nil.
  - intros d Hd. apply in_map_iff in Hd. destruct Hd as (d0 & <- & Hd0).
    now apply Hnone.
Qed.

(** *** The output directory *)

Lemma dirname_without_slash (p : string) :
  has_slash p = false -> os_path_dirname p = EmptyString.
Proof.
  intros H. unfold os_path_dirname.
  destruct p as [|c p]; [reflexivity|].
  cbn [head_to_last_slash]. now rewrite H.
Qed.

(** X24: An output path without a slash has no directory part: nothing
    lies at the empty path, so [mkdir -p] is run on it and fails, and the
    call ends with the exception of [sh] before it reads a source or
    writes a byte. *)
Theorem output_without_directory
    (iter_order : list string -> list string)
    (mkdir_made : string -> filesystem -> option (string -> bool))
    (fs : filesystem)
    (binaries_dirs : list string) (name output_file_path : string) :
  has_slash output_file_path = false ->
  fs EmptyString = None ->
  merge_opencl_binaries iter_order mkdir_made fs binaries_dirs name
    output_file_path = Err ErrorReturnCode.
Proof.
  intros Hslash Hempty. unfold merge_opencl_binaries, make_output_dir.
  rewrite (dirname_without_slash _ Hslash), Hempty.
  reflexivity.
Qed.

(** X25: When the directory of the output is the path of a source file
    that is missing, the source is not passed over: [mkdir -p] fails, or
    it makes a directory of that path, which the loop then finds and
    cannot open.  Either way the call raises. *)
Theorem output_dir_on_source
    (iter_order : list string -> list string)
    (mkdir_made : string -> filesystem -> option (string -> bool))
    (fs : filesystem) (dir : string) (after : list string)
    (name output_file_path : string) :
  os_path_dirname output_file_path
    = os_path_join (os_path_join dir "opencl_bin") name ->
  fs (os_path_join (os_path_join dir "opencl_bin") name) = None ->
  exists e,
    merge_opencl_binaries iter_order mkdir_made fs (dir :: after) name
      output_file_path = Err e /\
    (e = ErrorReturnCode \/ e = IOError).
Proof.
  intros Hdir Hmiss. unfold merge_opencl_binaries, make_output_dir.
  rewrite Hdir, Hmiss. unfold mkdir_p.
  destruct (String.eqb _ "");
    [exists ErrorReturnCode; split; [reflexivity|now left]|].
  destruct (mkdir_made _ fs) as [made|];
    [|exists ErrorReturnCode; split; [reflexivity|now left]].
  exists IOError. split; [|now right].
  cbn [bind map]. rewrite merge_kvs_step, Hmiss, String.eqb_refl.
  reflexivity.
Qed.

(** X26: A source that is missing once lines 402 to 404 have seen to the
    output directory is passed over by the whole call, wherever it stands
    in the sequence: the call gives the file system, or the exception,
    that it gives without that directory. *)
Theorem missing_source_skipped_by_call
    (iter_order : list string -> list string)
    (mkdir_made : string -> filesystem -> option (string -> bool))
    (fs fs1 : filesystem) (before after : list string)
    (dir name output_file_path : string) :
  make_output_dir mkdir_made fs output_file_path = Ok fs1 ->
  fs1 (os_path_join (os_path_join dir "opencl_bin") name) = None ->
  merge_opencl_binaries iter_order mkdir_made fs (before ++ dir :: after)
    name output_file_path =
  merge_opencl_binaries iter_order mkdir_made fs (before ++ after) name
    output_file_path.
Proof.
  intros Hdir Hmiss. unfold merge_opencl_binaries. rewrite Hdir.
  cbn [bind]. rewrite !map_app. cbn [map]. now rewrite merge_kvs_skip.
Qed.

(** *** Several sources as one *)

(** X22: Reading well-formed sources one after the other comes to storing
    their records in one row, as if they stood in a single file: the same
    accumulator, or the same exception. Bytes after the records of a
    source make no difference. *)
Theorem merge_sources_in_sequence (fs : filesystem) (name : string)
    (sources : list (string * (list (string * bytes) * bytes)))
    (kvs : dict) :
  Forall (fun source =>
            let '(dir, (records, extra)) := source in
            fs (os_path_join dir name)
              = Some (File (container_bytes records ++ extra)) /\
            Forall well_sized records /\ len records <= sys_maxint)
    sources ->
  merge_kvs fs (map fst sources) name kvs =
  store_all (flat_map (fun source => fst (snd source)) sources) kvs.
Proof.
  intros Hsrc. revert kvs.
  induction Hsrc as [|[dir [records extra]] sources (Hfile & Hs & Hn) _ IH];
    intros kvs; cbn [map fst snd flat_map]; [reflexivity|].
  rewrite merge_kvs_step.
  rewrite Hfile, store_all_app, read_binary_container by assumption.
  destruct (store_all records kvs); cbn [bind]; [apply IH|reflexivity].
Qed.

(** *** A source listed twice *)

Lemma np_eq_all_refl (v : bytes) : np_eq_all v v = Ok true.
Proof. unfold np_eq_all. now rewrite Nat.eqb_refl, zip_eqb_refl. Qed.

Lemma store_key_in (k : string) (v : bytes) (kvs kvs' : dict) :
  store k v kvs = Ok kvs' -> In k (keys kvs').
Proof.
  intros Hst. rewrite (store_keys _ _ _ _ Hst). apply in_or_app.
  destruct (dict_get k kvs) eqn:E; [left|right; now left].
  destruct (in_dec string_dec k (keys kvs)) as [Hin|Hout]; [exact Hin|].
  apply dict_get_none in Hout. congruence.
Qed.

Lemma store_all_keys_in (records : list (string * bytes)) :
  forall kvs kvs', store_all records kvs = Ok kvs' ->
  forall k, In k (keys kvs) \/ In k (keys records) -> In k (keys kvs').
Proof.
  induction records as [|[k0 v0] rest IH]; intros kvs kvs';
    cbn [store_all keys map fst In].
  - intros [= ->] k [H|[]]. exact H.
  - destruct (store k0 v0 kvs) as [kvs1|] eqn:E; cbn [bind]; [|discriminate].
    intros H k Hk. apply (IH _ _ H).
    destruct Hk as [Hk|[<-|Hk]].
    + left. rewrite (store_keys _ _ _ _ E). apply in_or_app. now left.
    + left. exact (store_key_in _ _ _ _ E).
    + now right.
Qed.

Lemma store_all_platform_checked (records : list (string * bytes)) :
  forall kvs kvs', store_all records kvs = Ok kvs' ->
  forall v, In (platform_info_key, v) records ->
  exists p, dict_get platform_info_key kvs' = Some p /\
            np_eq_all p v = Ok true.
Proof.
  induction records as [|[k0 v0] rest IH]; intros kvs kvs';
    cbn [store_all In]; [intros _ v []|].
  destruct (store k0 v0 kvs) as [kvs1|] eqn:E; cbn [bind]; [|discriminate].
  intros H v [[= -> ->]|Hin]; [|exact (IH _ _ H v Hin)].
  assert (Hp : exists p, dict_get platform_info_key kvs1 = Some p /\
                         np_eq_all p v = Ok true).
  { revert E. unfold store.
    destruct (dict_get platform_info_key kvs) as [old|] eqn:Eg.
    - rewrite String.eqb_refl.
      destruct (np_eq_all old v) as [[|]|] eqn:En; cbn; try discriminate.
      intros [= <-]. now exists old.
    - intros [= <-]. exists v. split; [apply dict_get_set_same|].
      apply np_eq_all_refl. }
  destruct Hp as (p & Hp & Heq). exists p. split; [|exact Heq].
  rewrite (store_all_platform_info _ _ _ H). now rewrite Hp.
Qed.

Lemma store_all_present (records : list (string * bytes)) :
  forall kvs,
  (forall k, In k (keys records) -> In k (keys kvs)) ->
  (forall v, In (platform_info_key, v) records ->
     exists p, dict_get platform_info_key kvs = Some p /\
               np_eq_all p v = Ok true) ->
  exists kvs',
    store_all records kvs = Ok kvs' /\
    keys kvs' = keys kvs /\
    dict_get platform_info_key kvs' = dict_get platform_info_key kvs /\
    forall k, k <> platform_info_key ->
      dict_get k kvs' =
      match last_value k records with
      | Some v => Some v
      | None => dict_get k kvs
      end.
Proof.
  induction records as [|[k0 v0] rest IH]; intros kvs Hkeys Hinfo;
    cbn [store_all].
  - exists kvs. repeat split; reflexivity.
  - assert (Hin : dict_get k0 kvs <> None).
    { intros Hn. apply dict_get_none in Hn. apply Hn, Hkeys. now left. }
    destruct (String.eqb_spec k0 platform_info_key) as [->|Hne].
    + destruct (Hinfo v0 (or_introl eq_refl)) as (p & Hp & Heq).
      assert (Hst : store platform_info_key v0 kvs = Ok kvs).
      { unfold store. now rewrite Hp, String.eqb_refl, Heq. }
      rewrite Hst. cbn [bind].
      destruct (IH kvs) as (kvs' & Hrun & Hk & Hi & Hv).
      { intros k Hk. apply Hkeys. now right. }
      { intros v Hv. apply Hinfo. now right. }
      exists kvs'. repeat split; try assumption.
      intros k Hk0. rewrite (Hv k Hk0). cbn [last_value].
      destruct (last_value k rest); [reflexivity|].
      apply String.eqb_neq in Hk0. now rewrite Hk0.
    + rewrite (store_other_key _ _ _ Hne). cbn [bind].
      destruct (IH (dict_set k0 v0 kvs)) as (kvs' & Hrun & Hk & Hi & Hv).
      { intros k Hk. rewrite dict_set_present by exact Hin.
        apply Hkeys. now right. }
      { intros v Hv. rewrite dict_get_set_other by congruence.
        apply Hinfo. now right. }
      exists kvs'. split; [exact Hrun|]. split.
      { rewrite Hk. now apply dict_set_present. }
      split.
      { rewrite Hi. apply dict_get_set_other. congruence. }
      intros k Hk0. rewrite (Hv k Hk0). cbn [last_value].
      destruct (last_value k rest); [reflexivity|].
      destruct (String.eqb_spec k k0) as [->|Hkk].
      * apply dict_get_set_same.
      * now apply dict_get_set_other.
Qed.

Lemma dict_ext (a : dict) :
  forall b, NoDup (keys a) -> keys a = keys b ->
  (forall k, dict_get k a = dict_get k b) -> a = b.
Proof.
  induction a as [|[k v] a IH]; intros [|[k' w] b] Hnd Hk Hget;
    try discriminate; [reflexivity|].
  cbn [keys map fst] in Hk, Hnd. injection Hk as <- Hk.
  inversion Hnd as [|? ? Hout Hnd']; subst.
  pose proof (Hget k) as Hv. cbn [dict_get] in Hv.
  rewrite String.eqb_refl in Hv. injection Hv as <-.
  f_equal. apply IH; [exact Hnd'|exact Hk|].
  intros k0. destruct (String.eqb_spec k0 k) as [->|Hne].
  - assert (Ha : dict_get k a = None) by now apply dict_get_none.
    assert (Hb : dict_get k b = None).
    { apply dict_get_none. unfold keys in *. now rewrite <- Hk. }
    now rewrite Ha, Hb.
  - specialize (Hget k0). cbn [dict_get] in Hget.
    apply String.eqb_neq in Hne. now rewrite Hne in Hget.
Qed.

Lemma store_all_again (records : list (string * bytes)) (kvs kvs' : dict) :
  NoDup (keys kvs) -> store_all records kvs = Ok kvs' ->
  store_all records kvs' = Ok kvs'.
Proof.
  intros Hnd Hrun.
  destruct (store_all_present records kvs') as (kvs2 & Hrun2 & Hk & Hi & Hv).
  - intros k Hk. apply (store_all_keys_in _ _ _ Hrun). now right.
  - exact (store_all_platform_checked _ _ _ Hrun).
  - rewrite Hrun2. f_equal. symmetry. apply dict_ext.
    + exact (store_all_nodup _ _ _ Hrun Hnd).
    + now symmetry.
    + intros k. destruct (String.eqb_spec k platform_info_key) as [->|Hne].
      * now symmetry.
      * rewrite (Hv k Hne).
        destruct (last_value k records) as [v|] eqn:El; [|reflexivity].
        exact (store_all_last k v records Hne _ _ Hrun El).
Qed.

(** X23: Naming a directory twice in a row changes nothing: the second
    reading of its file finds every key in place, with the value the
    first reading left, and the same platform info; the call returns the
    same file system, or ends with the same exception, as with the
    directory named once. *)
Theorem source_listed_twice
    (iter_order : list string -> list string)
    (mkdir_made : string -> filesystem -> option (string -> bool))
    (fs : filesystem)
    (before after : list string) (dir name output_file_path : string)
    (records : list (string * bytes)) (extra : bytes) :
  fs (os_path_join (os_path_join dir "opencl_bin") name)
    = Some (File (container_bytes records ++ extra)) ->
  Forall well_sized records -> len records <= sys_maxint ->
  merge_opencl_binaries iter_order mkdir_made fs
    (before ++ dir :: dir :: after) name output_file_path =
  merge_opencl_binaries iter_order mkdir_made fs (before ++ dir :: after)
    name output_file_path.
Proof.
  intros Hfile Hs Hn. unfold merge_opencl_binaries.
  destruct (make_output_dir mkdir_made fs output_file_path) as [fs1|] eqn:D;
    cbn [bind]; [|reflexivity].
  apply (make_output_dir_keeps _ _ _ _ D) in Hfile.
  rewrite !map_app. cbn [map]. rewrite !merge_kvs_app.
  destruct (merge_kvs fs1 (map _ before) name []) as [kvs0|] eqn:E0;
    cbn [bind]; [|reflexivity].
  assert (Hnd : NoDup (keys kvs0))
    by exact (merge_kvs_nodup _ _ _ _ _ E0 (NoDup_nil _)).
  rewrite !merge_kvs_step, Hfile.
  rewrite read_binary_container by assumption.
  destruct (store_all records kvs0) as [kvs1|] eqn:E1; cbn [bind];
    [|reflexivity].
  rewrite merge_kvs_step, Hfile.
  rewrite read_binary_container by assumption.
  now rewrite (store_all_again records kvs0 kvs1 Hnd E1).
Qed.

(** ** The further theorems at work on the samples *)

Lemma bazel_label_to_bin_witness :
  all_chars (fun c => negb (Ascii.eqb c ":")) "mace/tools/validation" = true /\
  all_chars (fun c => negb (Ascii.eqb c ":")) "mace_run" = true /\
  contains "//" "mace/tools/validation" = false /\
  bazel_target_to_bin ("//" ++ "mace/tools/validation" ++ String ":" "mace_run")
  = Returns (("bazel-bin/" ++ "mace/tools/validation")%string,
             "mace_run"%string).
Proof.
  assert (H1 : all_chars (fun c => negb (Ascii.eqb c ":"))
                 "mace/tools/validation" = true) by reflexivity.
  assert (H2 : all_chars (fun c => negb (Ascii.eqb c ":")) "mace_run" = true)
    by reflexivity.
  assert (H3 : contains "//" "mace/tools/validation" = false) by reflexivity.
  split; [exact H1|]. split; [exact H2|]. split; [exact H3|].
  exact (bazel_label_to_bin "mace/tools/validation" "mace_run" H1 H2 H3).
Defined.

Lemma split_stdout_lines_witness :
  In sample_device_line
    (split_stdout (fun s => s) sample_devices_output) /\
  sample_device_line <> EmptyString /\
  all_chars (fun c => negb (Ascii.eqb c "010")) sample_device_line = true /\
  strip sample_device_line = sample_device_line.
Proof.
  assert (H : In sample_device_line
                (split_stdout (fun s => s) sample_devices_output))
    by (vm_compute; right; left; reflexivity).
  split; [exact H|].
  exact (split_stdout_lines (fun s => s) sample_devices_output
           sample_device_line H).
Defined.

Lemma all_socs_every_device_witness :
  (forall keys,
     NoDup keys ->
     (List.length keys
      <= List.length (adb_devices (fun s => s) sample_devices_output))%nat ->
     Permutation (CPython27.iter_order keys) keys) /\
  forallb (reports_platform sample_getprop)
    (adb_devices (fun s => s) sample_devices_output) = true /\
  exists serialnos,
    get_target_socs_serialnos (fun s => s) sample_devices_output
      sample_getprop CPython27.iter_order None = Returns serialnos /\
    Permutation serialnos (adb_devices (fun s => s) sample_devices_output).
Proof.
  assert (Hdev : adb_devices (fun s => s) sample_devices_output
                 = ["R58M42ABCDE"; "0123456789ABCDEF"]%string)
    by (vm_compute; reflexivity).
  assert (H1 : forall keys,
            NoDup keys ->
            (List.length keys
             <= List.length
                  (adb_devices (fun s => s) sample_devices_output))%nat ->
            Permutation (CPython27.iter_order keys) keys).
  { intros keys Hnd Hlen. rewrite Hdev in Hlen. cbn [List.length] in Hlen.
    apply cpython27_iter_order_perm; [exact Hnd|]. unfold len. lia. }
  assert (H2 : forallb (reports_platform sample_getprop)
                 (adb_devices (fun s => s) sample_devices_output) = true)
    by (vm_compute; reflexivity).
  split; [exact H1|]. split; [exact H2|].
  exact (all_socs_every_device (fun s => s) sample_devices_output
           sample_getprop CPython27.iter_order H1 H2).
Defined.

Lemma supported_abis_of_list_witness :
  let abis := ["arm64-v8a"; "armeabi-v7a"; "armeabi"]%string in
  abis <> [] /\
  (forall abi, In abi abis ->
     all_chars (fun c => negb (Ascii.eqb c ",")) abi = true) /\
  (forall abi, In abi abis -> strip abi = abi) /\
  lookup "ro.product.cpu.abilist" (sample_getprop "R58M42ABCDE")
    = Some (String.concat "," abis) /\
  adb_supported_abis sample_getprop "R58M42ABCDE" = Returns abis.
Proof.
  intros abis.
  assert (H1 : abis <> []) by discriminate.
  assert (H2 : forall abi, In abi abis ->
            all_chars (fun c => negb (Ascii.eqb c ",")) abi = true)
    by (intros abi [<-|[<-|[<-|[]]]]; reflexivity).
  assert (H3 : forall abi, In abi abis -> strip abi = abi)
    by (intros abi [<-|[<-|[<-|[]]]]; reflexivity).
  assert (H4 : lookup "ro.product.cpu.abilist" (sample_getprop "R58M42ABCDE")
               = Some (String.concat "," abis)) by reflexivity.
  split; [exact H1|]. split; [exact H2|]. split; [exact H3|].
  split; [exact H4|].
  exact (supported_abis_of_list sample_getprop "R58M42ABCDE" abis
           H1 H2 H3 H4).
Defined.

Lemma supported_abis_shape_witness :
  let abis := ["arm64-v8a"; "armeabi-v7a"; "armeabi"]%string in
  adb_supported_abis sample_getprop "0123456789ABCDEF" = Returns abis /\
  abis <> [] /\
  forall abi, In abi abis ->
    all_chars (fun c => negb (Ascii.eqb c ",")) abi = true /\
    strip abi = abi.
Proof.
  intros abis.
  assert (H : adb_supported_abis sample_getprop "0123456789ABCDEF"
              = Returns abis) by (vm_compute; reflexivity).
  split; [exact H|].
  exact (supported_abis_shape sample_getprop "0123456789ABCDEF" abis H).
Defined.

Lemma device_lock_held_until_release_witness :
  let serialno := "R58M42ABCDE"%string in
  let held : locks := fun _ => false in
  let held' := set_lock held (device_lock_path serialno) true in
  acquire (device_lock serialno None) held = Acquired held' /\
  is_device_locked serialno held' = Some (true, held') /\
  (forall t' : option Q,
     acquire (device_lock serialno t') held' =
     if Qle_bool 0 (timeout (device_lock serialno t'))
     then Timeout else Blocked) /\
  (forall p, release (device_lock serialno None) held' p = held p) /\
  exists free,
    is_device_locked serialno (release (device_lock serialno None) held')
      = Some (false, free).
Proof.
  intros serialno held held'.
  assert (H : acquire (device_lock serialno None) held = Acquired held')
    by reflexivity.
  split; [exact H|].
  exact (device_lock_held_until_release serialno None held held' H).
Defined.

Lemma trailing_bytes_ignored_witness :
  let records := [("a"%string, [x01]); ("b"%string, [x02; x03])] in
  Forall well_sized records /\ len records <= sys_maxint /\
  read_binary (container_bytes records ++ [xff; xff; xff]) [] =
  read_binary (container_bytes records) [].
Proof.
  intros records.
  assert (H1 : Forall well_sized records) by (repeat constructor; cbn; lia).
  assert (H2 : len records <= sys_maxint) by (unfold sys_maxint; cbn; lia).
  split; [exact H1|]. split; [exact H2|].
  exact (trailing_bytes_ignored records [xff; xff; xff] [] H1 H2).
Defined.

Lemma short_source_raises_witness :
  short_fs (os_path_join "x/opencl_bin" "cl.bin")
    = Some (File [x01; x00; x00]) /\
  len [x01; x00; x00] < 8 /\
  merge_kvs short_fs ("x/opencl_bin"%string :: ["y/opencl_bin"%string])
    "cl.bin" [] = Err StructError.
Proof.
  assert (H1 : short_fs (os_path_join "x/opencl_bin" "cl.bin")
               = Some (File [x01; x00; x00])) by reflexivity.
  assert (H2 : len [x01; x00; x00] < 8) by (cbn; lia).
  split; [exact H1|]. split; [exact H2|].
  exact (short_source_raises short_fs "cl.bin" "x/opencl_bin"
           ["y/opencl_bin"%string] [x01; x00; x00] [] H1 H2).
Defined.

Lemma merge_removes_no_key_witness :
  let kvs := [("z"%string, [x09]); ("b"%string, [x07])] in
  let kvs' := [("z"%string, [x09]); ("b"%string, [x01]);
               ("a"%string, [x02])] in
  merge_kvs letters_fs ["x/opencl_bin"; "y/opencl_bin"]%string "cl.bin" kvs
    = Ok kvs' /\
  dict_get "z" kvs <> None /\ dict_get "z" kvs' <> None.
Proof.
  intros kvs kvs'.
  assert (H1 : merge_kvs letters_fs ["x/opencl_bin"; "y/opencl_bin"]%string
                 "cl.bin" kvs = Ok kvs') by (vm_compute; reflexivity).
  assert (H2 : dict_get "z" kvs <> None) by discriminate.
  split; [exact H1|]. split; [exact H2|].
  exact (merge_removes_no_key letters_fs "cl.bin"
           ["x/opencl_bin"; "y/opencl_bin"]%string kvs kvs' "z" H1 H2).
Defined.

Lemma platform_info_never_replaced_witness :
  let kvs := [(platform_info_key, [x05])] in
  merge_kvs platform_fs ["x/opencl_bin"; "y/opencl_bin"]%string "cl.bin" kvs
    = Ok kvs /\
  dict_get platform_info_key kvs = Some [x05] /\
  dict_get platform_info_key kvs = Some [x05].
Proof.
  intros kvs.
  assert (H1 : merge_kvs platform_fs ["x/opencl_bin"; "y/opencl_bin"]%string
                 "cl.bin" kvs = Ok kvs) by (vm_compute; reflexivity).
  assert (H2 : dict_get platform_info_key kvs = Some [x05]) by reflexivity.
  split; [exact H1|]. split; [exact H2|].
  exact (platform_info_never_replaced platform_fs "cl.bin"
           ["x/opencl_bin"; "y/opencl_bin"]%string kvs kvs [x05] H1 H2).
Defined.

Lemma no_source_empty_container_witness :
  let fs1 :=
    match make_output_dir mkdir_parents letters_fs "merged/cl.bin" with
    | Ok made => made
    | Err _ => letters_fs
    end in
  make_output_dir mkdir_parents letters_fs "merged/cl.bin" = Ok fs1 /\
  (forall d, In d ["p"; "q"]%string ->
     fs1 (os_path_join (os_path_join d "opencl_bin") "cl.bin") = None) /\
  merge_opencl_binaries CPython27.iter_order mkdir_parents letters_fs
    ["p"; "q"]%string "cl.bin" "merged/cl.bin" =
  tofile fs1 "merged/cl.bin" (repeat x00 8).
Proof.
  intros fs1.
  assert (H1 : make_output_dir mkdir_parents letters_fs "merged/cl.bin"
               = Ok fs1) by reflexivity.
  assert (H2 : forall d, In d ["p"; "q"]%string ->
            fs1 (os_path_join (os_path_join d "opencl_bin") "cl.bin") = None)
    by (intros d [<-|[<-|[]]]; reflexivity).
  split; [exact H1|]. split; [exact H2|].
  exact (no_source_empty_container CPython27.iter_order mkdir_parents
           letters_fs fs1 ["p"; "q"]%string "cl.bin" "merged/cl.bin" H1 H2).
Defined.

Lemma output_without_directory_witness :
  has_slash "merged.bin" = false /\
  letters_fs EmptyString = None /\
  merge_opencl_binaries CPython27.iter_order mkdir_parents letters_fs
    ["x"; "y"]%string "cl.bin" "merged.bin" = Err ErrorReturnCode.
Proof.
  assert (H1 : has_slash "merged.bin" = false) by reflexivity.
  assert (H2 : letters_fs EmptyString = None) by reflexivity.
  split; [exact H1|]. split; [exact H2|].
  exact (output_without_directory CPython27.iter_order mkdir_parents
           letters_fs ["x"; "y"]%string "cl.bin" "merged.bin" H1 H2).
Defined.

Lemma output_dir_on_source_witness :
  os_path_dirname "z/opencl_bin/cl.bin/out.bin"
    = os_path_join (os_path_join "z" "opencl_bin") "cl.bin" /\
  letters_fs (os_path_join (os_path_join "z" "opencl_bin") "cl.bin")
    = None /\
  exists e,
    merge_opencl_binaries CPython27.iter_order mkdir_parents letters_fs
      ("z"%string :: ["y"%string]) "cl.bin" "z/opencl_bin/cl.bin/out.bin"
      = Err e /\
    (e = ErrorReturnCode \/ e = IOError).
Proof.
  assert (H1 : os_path_dirname "z/opencl_bin/cl.bin/out.bin"
               = os_path_join (os_path_join "z" "opencl_bin") "cl.bin")
    by reflexivity.
  assert (H2 : letters_fs
                 (os_path_join (os_path_join "z" "opencl_bin") "cl.bin")
               = None) by reflexivity.
  split; [exact H1|]. split; [exact H2|].
  exact (output_dir_on_source CPython27.iter_order mkdir_parents letters_fs
           "z" ["y"%string] "cl.bin" "z/opencl_bin/cl.bin/out.bin" H1 H2).
Defined.

Lemma missing_source_skipped_by_call_witness :
  make_output_dir mkdir_parents letters_fs "out/cl.bin" = Ok letters_fs /\
  letters_fs (os_path_join (os_path_join "missing" "opencl_bin") "cl.bin")
    = None /\
  merge_opencl_binaries CPython27.iter_order mkdir_parents letters_fs
    (["x"%string] ++ "missing"%string :: ["y"%string]) "cl.bin"
    "out/cl.bin" =
  merge_opencl_binaries CPython27.iter_order mkdir_parents letters_fs
    (["x"%string] ++ ["y"%string]) "cl.bin" "out/cl.bin".
Proof.
  assert (H1 : make_output_dir mkdir_parents letters_fs "out/cl.bin"
               = Ok letters_fs) by reflexivity.
  assert (H2 : letters_fs
                 (os_path_join (os_path_join "missing" "opencl_bin") "cl.bin")
               = None) by reflexivity.
  split; [exact H1|]. split; [exact H2|].
  exact (missing_source_skipped_by_call CPython27.iter_order mkdir_parents
           letters_fs letters_fs ["x"%string] ["y"%string] "missing"
           "cl.bin" "out/cl.bin" H1 H2).
Defined.

Lemma merge_sources_in_sequence_witness :
  let sources :=
    [("x/opencl_bin"%string, ([("conv2d"%string, [x0a; x0b])], []));
     ("y/opencl_bin"%string, ([("conv2d"%string, [x0c; x0d; x0e])], []))] in
  Forall (fun source : string * (list (string * bytes) * bytes) =>
            let '(dir, (records, extra)) := source in
            program_fs (os_path_join dir "cl.bin")
              = Some (File (container_bytes records ++ extra)) /\
            Forall well_sized records /\ len records <= sys_maxint)
    sources /\
  merge_kvs program_fs (map fst sources) "cl.bin" [] =
  store_all (flat_map (fun source => fst (snd source)) sources) [].
Proof.
  intros sources.
  assert (H : Forall (fun source : string * (list (string * bytes) * bytes) =>
                 let '(dir, (records, extra)) := source in
                 program_fs (os_path_join dir "cl.bin")
                   = Some (File (container_bytes records ++ extra)) /\
                 Forall well_sized records /\ len records <= sys_maxint)
                sources).
  { repeat constructor; try reflexivity; try (cbn; lia);
      unfold sys_maxint; cbn; lia. }
  split; [exact H|].
  exact (merge_sources_in_sequence program_fs "cl.bin" sources [] H).
Defined.

Lemma source_listed_twice_witness :
  let records := [("conv2d"%string, [x0a; x0b])] in
  program_fs (os_path_join (os_path_join "x" "opencl_bin") "cl.bin")
    = Some (File (container_bytes records ++ [])) /\
  Forall well_sized records /\ len records <= sys_maxint /\
  merge_opencl_binaries CPython27.iter_order mkdir_parents program_fs
    ([] ++ "x"%string :: "x"%string :: ["y"%string]) "cl.bin" "out/cl.bin" =
  merge_opencl_binaries CPython27.iter_order mkdir_parents program_fs
    ([] ++ "x"%string :: ["y"%string]) "cl.bin" "out/cl.bin".
Proof.
  intros records.
  assert (H1 : program_fs
                 (os_path_join (os_path_join "x" "opencl_bin") "cl.bin")
               = Some (File (container_bytes records ++ []))) by reflexivity.
  assert (H2 : Forall well_sized records) by (repeat constructor; cbn; lia).
  assert (H3 : len records <= sys_maxint) by (unfold sys_maxint; cbn; lia).
  split; [exact H1|]. split; [exact H2|]. split; [exact H3|].
  exact (source_listed_twice CPython27.iter_order mkdir_parents program_fs
           [] ["y"%string] "x" "cl.bin" "out/cl.bin" records [] H1 H2 H3).
Defined.

Lemma all_socs_cover_devices_witness :
  adb_get_all_socs (fun s => s) sample_devices_output sample_getprop
    = Returns ["sdm845"; "msm8998"]%string /\
  Permutation ["msm8998"; "sdm845"]%string ["sdm845"; "msm8998"]%string /\
  exists serialnos,
    get_target_socs_serialnos (fun s => s) sample_devices_output
      sample_getprop CPython27.iter_order
      (Some ["msm8998"; "sdm845"]%string) = Returns serialnos /\
    Permutation serialnos (adb_devices (fun s => s) sample_devices_output).
Proof.
  assert (H1 : adb_get_all_socs (fun s => s) sample_devices_output
                 sample_getprop = Returns ["sdm845"; "msm8998"]%string)
    by (vm_compute; reflexivity).
  assert (H2 : Permutation ["msm8998"; "sdm845"]%string
                 ["sdm845"; "msm8998"]%string) by apply perm_swap.
  split; [exact H1|]. split; [exact H2|].
  exact (all_socs_cover_devices (fun s => s) sample_devices_output
           sample_getprop CPython27.iter_order
           ["sdm845"; "msm8998"]%string ["msm8998"; "sdm845"]%string H1 H2).
Defined.
